(** * Signer channel and TON Connect session manager of tonkeeper-web

    A shallow embedding of
    - [packages/uikit/src/state/mnemonic.ts]: the secret provider
      ([getMnemonic]), the signer factory ([getSigner]) and the three
      request/response channels over the [uiEvents] bus;
    - [packages/uikit/src/state/tonConnect.ts]: [disconnectFromWallet] and the
      disconnect mutation of [useDisconnectTonConnectApp].

    JavaScript runs on one thread: an [async] function runs until its next
    [await] and is resumed by the event loop.  An asynchronous call is a
    function from the state of the application ([World]) to a new state and
    the suspended remainder of the call ([Task]). *)

From stdpp Require Import gmap strings list.

Set Warnings "-register-all".

Open Scope string_scope.
Open Scope Z_scope.

(** ** JavaScript values *)

(** The values that travel over the event bus.  Numbers are integers here:
    the code only produces millisecond time stamps and path indices. *)
Inductive JsValue : Type :=
| VUndefined
| VNull
| VBool (b : bool)
| VNumber (n : Z)
| VString (s : string)
| VError (message : string)
| VArray (items : list JsValue)
| VObject (fields : list (string * JsValue)).

(** [typeof v] *)
Definition typeof (v : JsValue) : string :=
  match v with
  | VUndefined => "undefined"
  | VNull => "object"
  | VBool _ => "boolean"
  | VNumber _ => "number"
  | VString _ => "string"
  | VError _ => "object"
  | VArray _ => "object"
  | VObject _ => "object"
  end.

(** The truth value of [v] in a condition. *)
Definition truthy (v : JsValue) : bool :=
  match v with
  | VUndefined => false
  | VNull => false
  | VBool b => b
  | VNumber n => negb (n =? 0)
  | VString s => negb (String.eqb s "")
  | VError _ => true
  | VArray _ => true
  | VObject _ => true
  end.

(** How a promise ends. *)
Inductive Outcome (A : Type) : Type :=
| Fulfilled (a : A)
| Rejected (e : JsValue).
Arguments Fulfilled {A} a.
Arguments Rejected {A} e.

(** ** Data model *)

(** [AccountConnection]: one authorised dApp pairing. *)
Record AccountConnection : Type := {
  clientSessionId : string;
  webViewUrl : option string;
  manifestUrl : string
}.

(** [Pick<TonWalletStandard, 'publicKey' | 'id'>] *)
Record TonWalletStandard : Type := {
  wallet_id : string;
  publicKey : string;
  rawAddress : string
}.

(** The active wallet is a [TonContract]; [isStandardTonWallet] tells the
    standard ones from the others (which have no public key). *)
Inductive TonContract : Type :=
| StandardWallet (w : TonWalletStandard)
| OtherContract (id : string).

Definition isStandardTonWallet (c : TonContract) : bool :=
  match c with
  | StandardWallet _ => true
  | OtherContract _ => false
  end.

(** An account; [isAccountTonWalletStandard] is [account_standard]. *)
Record Account : Type := {
  account_standard : bool;
  allTonWallets : list TonWalletStandard
}.

(** [AuthState], by its [kind]. *)
Inductive AuthState : Type :=
| AuthNone
| AuthPassword
| AuthKeychain
| AuthSigner
| AuthSignerDeepLink
| AuthLedger.

Definition auth_kind (a : AuthState) : string :=
  match a with
  | AuthNone => "none"
  | AuthPassword => "password"
  | AuthKeychain => "keychain"
  | AuthSigner => "signer"
  | AuthSignerDeepLink => "signer-deeplink"
  | AuthLedger => "ledger"
  end.

Definition auth_to_js (a : AuthState) : JsValue :=
  VObject [("kind", VString (auth_kind a))].

(** A [Cell], seen through the two things the code asks of it:
    [toBoc({ idx: false }).toString('base64')] and [hash()]. *)
Record Cell : Type := {
  cell_boc_base64 : string;
  cell_hash : string
}.

(** ** Storage *)

(** [IStorage]: the connection list of each wallet, by wallet id, and every
    other entry by its key. *)
Record Storage : Type := {
  connection_sets : gmap string (list AccountConnection);
  entries : gmap string JsValue
}.

(** Modelled from the spec: [getTonWalletConnections] of
    [core/service/tonConnect/connectionService] is not part of the sources;
    the storage keeps one ordered connection list per wallet, and a wallet
    with no list has no connections. *)
Definition getTonWalletConnections (s : Storage) (w : TonWalletStandard)
  : list AccountConnection :=
  default [] (connection_sets s !! wallet_id w).

(** Modelled from the spec: [setAccountConnection] of the same module;
    it replaces the whole list of the wallet. *)
Definition setAccountConnection (s : Storage) (w : TonWalletStandard)
    (items : list AccountConnection) : Storage :=
  {| connection_sets := <[wallet_id w := items]> (connection_sets s);
     entries := entries s |}.

(** ** The event bus *)

(** A message on the bus: [{ method, id, params }]. *)
Record Message : Type := {
  method : string;
  msg_id : option Z;
  params : JsValue
}.

(** The test an [onCallback] closure runs on [params]:
    [typeof params === 'string'] for the password and signer channels,
    [params && typeof params === 'object'] for the ledger channel. *)
Inductive Expect : Type := ExpectString | ExpectObject.

(** An [onCallback] closure: its identity ([off] compares references), the
    [id] it captured and its test.  The closure owns the [resolve] and
    [reject] of the promise created with it; both carry the same reference. *)
Record Listener : Type := {
  l_ref : nat;
  l_id : Z;
  l_expect : Expect
}.

(** ** The state of the application *)

Record World : Type := {
  clock : Z;                                   (* Date.now() *)
  storage : Storage;                           (* sdk.storage *)
  location : option string;                    (* window.location *)
  callbacks : list (string * Listener);        (* uiEvents subscriptions, oldest first *)
  published : list (string * Message);         (* uiEvents.emit calls, newest first *)
  next_ref : nat;                              (* next fresh closure reference *)
  settle_log : list (nat * Outcome JsValue);   (* resolve / reject calls, newest first *)
  disconnected : list (list AccountConnection);(* tonConnectAppManuallyDisconnected$.next calls *)
  unsubscribed : list string                   (* notifications.unsubscribeTonConnect calls *)
}.

Definition set_clock (t : Z) (w : World) : World :=
  {| clock := t; storage := storage w; location := location w;
     callbacks := callbacks w; published := published w;
     next_ref := next_ref w; settle_log := settle_log w;
     disconnected := disconnected w; unsubscribed := unsubscribed w |}.

Definition set_storage (s : Storage) (w : World) : World :=
  {| clock := clock w; storage := s; location := location w;
     callbacks := callbacks w; published := published w;
     next_ref := next_ref w; settle_log := settle_log w;
     disconnected := disconnected w; unsubscribed := unsubscribed w |}.

Definition set_location (uri : string) (w : World) : World :=
  {| clock := clock w; storage := storage w; location := Some uri;
     callbacks := callbacks w; published := published w;
     next_ref := next_ref w; settle_log := settle_log w;
     disconnected := disconnected w; unsubscribed := unsubscribed w |}.

Definition set_callbacks (cs : list (string * Listener)) (w : World) : World :=
  {| clock := clock w; storage := storage w; location := location w;
     callbacks := cs; published := published w;
     next_ref := next_ref w; settle_log := settle_log w;
     disconnected := disconnected w; unsubscribed := unsubscribed w |}.

Definition log_published (topic : string) (m : Message) (w : World) : World :=
  {| clock := clock w; storage := storage w; location := location w;
     callbacks := callbacks w; published := (topic, m) :: published w;
     next_ref := next_ref w; settle_log := settle_log w;
     disconnected := disconnected w; unsubscribed := unsubscribed w |}.

Definition log_settle (p : nat) (o : Outcome JsValue) (w : World) : World :=
  {| clock := clock w; storage := storage w; location := location w;
     callbacks := callbacks w; published := published w;
     next_ref := next_ref w; settle_log := (p, o) :: settle_log w;
     disconnected := disconnected w; unsubscribed := unsubscribed w |}.

Definition bump_ref (w : World) : World :=
  {| clock := clock w; storage := storage w; location := location w;
     callbacks := callbacks w; published := published w;
     next_ref := S (next_ref w); settle_log := settle_log w;
     disconnected := disconnected w; unsubscribed := unsubscribed w |}.

Definition log_disconnected (cs : list AccountConnection) (w : World) : World :=
  {| clock := clock w; storage := storage w; location := location w;
     callbacks := callbacks w; published := published w;
     next_ref := next_ref w; settle_log := settle_log w;
     disconnected := cs :: disconnected w; unsubscribed := unsubscribed w |}.

Definition log_unsubscribed (ids : list string) (w : World) : World :=
  {| clock := clock w; storage := storage w; location := location w;
     callbacks := callbacks w; published := published w;
     next_ref := next_ref w; settle_log := settle_log w;
     disconnected := disconnected w; unsubscribed := unsubscribed w ++ ids |}.

(** ** Asynchronous calls *)

(** What is left of an asynchronous call at a suspension point. *)
Inductive Task (A : Type) : Type :=
| Settled (o : Outcome A)
    (* the call has returned or thrown *)
| AwaitIO (k : World -> World * Task A)
    (* [await] of a storage or platform call; [k] is that call and the rest *)
| AwaitPromise (p : nat) (k : Outcome JsValue -> World -> World * Task A)
    (* [await] of the channel promise [p] *)
| AwaitDelay (deadline : Z) (k : World -> World * Task A).
    (* [await delay(ms)]: the timer fires at [deadline] or later *)
Arguments Settled {A} o.
Arguments AwaitIO {A} k.
Arguments AwaitPromise {A} p k.
Arguments AwaitDelay {A} deadline k.

(** An asynchronous call: it runs to its first suspension point. *)
Definition Async (A : Type) : Type := World -> World * Task A.

(** [return a] and [throw e] *)
Definition ret {A} (a : A) : Async A := fun w => (w, Settled (Fulfilled a)).
Definition throw {A} (e : JsValue) : Async A := fun w => (w, Settled (Rejected e)).

(** The rest of the caller, [f], after the awaited call [t]: a thrown value
    passes through. *)
Fixpoint bind_task {A B} (t : Task A) (f : A -> Async B) (w : World)
  : World * Task B :=
  match t with
  | Settled (Fulfilled a) => f a w
  | Settled (Rejected e) => (w, Settled (Rejected e))
  | AwaitIO k =>
      (w, AwaitIO (fun w1 => let (w2, t2) := k w1 in bind_task t2 f w2))
  | AwaitPromise p k =>
      (w, AwaitPromise p (fun o w1 => let (w2, t2) := k o w1 in bind_task t2 f w2))
  | AwaitDelay d k =>
      (w, AwaitDelay d (fun w1 => let (w2, t2) := k w1 in bind_task t2 f w2))
  end.

Definition bind {A B} (m : Async A) (f : A -> Async B) : Async B :=
  fun w => let (w1, t) := m w in bind_task t f w1.

Notation "x <- m ;; k" := (bind m (fun x => k))
  (at level 100, m at next level, right associativity).

(** [await io(...)]: the platform call [io] takes effect when the event loop
    completes it. *)
Definition await_io {A} (io : World -> World * Outcome A) : Async A :=
  fun w => (w, AwaitIO (fun w1 => let (w2, o) := io w1 in (w2, Settled o))).

(** [await delay(ms)] *)
Definition delay (ms : Z) : Async unit :=
  fun w => (w, AwaitDelay (clock w + ms) (fun w1 => (w1, Settled (Fulfilled tt)))).

(** Runs a call whose awaits are all platform calls to its end, nothing
    else running in between. *)
Fixpoint run_alone {A} (t : Task A) (w : World) : World * option (Outcome A) :=
  match t with
  | Settled o => (w, Some o)
  | AwaitIO k => let (w1, t1) := k w in run_alone t1 w1
  | AwaitPromise _ _ => (w, None)
  | AwaitDelay _ _ => (w, None)
  end.

(** A call made and run to its end. *)
Definition call_alone {A} (m : Async A) (w : World) : World * option (Outcome A) :=
  let (w1, t) := m w in run_alone t w1.

(** ** The [uiEvents] bus *)

(** Modelled from the spec: the emitter class behind [sdk.uiEvents]
    ([IAppSdk] of the core package) is not part of the sources; the spec
    has it as a publish/subscribe bus with named topics.  [on] appends a
    subscription to the topic. *)
Definition on (topic : string) (callback : Listener) (w : World) : World :=
  set_callbacks (callbacks w ++ [(topic, callback)]) w.

(** [sub] is a subscription of [callback] to [topic]. *)
Definition same_subscription (topic : string) (callback : Listener)
    (sub : string * Listener) : bool :=
  String.eqb sub.1 topic && Nat.eqb (l_ref sub.2) (l_ref callback).

(** Modelled from the spec: [off] of the same emitter; it removes the
    subscriptions of that callback, compared by reference, from the topic. *)
Definition off (topic : string) (callback : Listener) (w : World) : World :=
  set_callbacks
    (List.filter (fun sub => negb (same_subscription topic callback sub)) (callbacks w))
    w.

(** [resolve(value)] and [reject(value)] of the promise with reference [p]. *)
Definition resolve (p : nat) (v : JsValue) (w : World) : World :=
  log_settle p (Fulfilled v) w.

Definition reject (p : nat) (v : JsValue) (w : World) : World :=
  log_settle p (Rejected v) w.

(** The [resolve] and [reject] calls made so far on promise [p], newest
    first, and the state of the promise: the first call settles it. *)
Definition calls (p : nat) (w : World) : list (Outcome JsValue) :=
  map snd (List.filter (fun entry => Nat.eqb entry.1 p) (settle_log w)).

Definition promise_state (p : nat) (w : World) : option (Outcome JsValue) :=
  last (calls p w).

(** [message.id === id] *)
Definition id_matches (message : Message) (id : Z) : bool :=
  match msg_id message with
  | Some n => n =? id
  | None => false
  end.

(** The test of the closure on [params]. *)
Definition accepts (e : Expect) (v : JsValue) : bool :=
  match e with
  | ExpectString => String.eqb (typeof v) "string"
  | ExpectObject => truthy v && String.eqb (typeof v) "object"
  end.

(** The body shared by the three [onCallback] closures. *)
Definition onCallback (self : Listener) (message : Message) (w : World) : World :=
  if id_matches message (l_id self) then
    let params := params message in
    let w := off "response" self w in
    if accepts (l_expect self) params
    then resolve (l_ref self) params w
    else reject (l_ref self) params w
  else w.

(** One call of [emit]: the subscription [sub] is called when it is on
    [topic]. *)
Definition deliver_to (topic : string) (message : Message)
    (w : World) (sub : string * Listener) : World :=
  if String.eqb sub.1 topic then onCallback sub.2 message w else w.

(** Modelled from the spec: [emit] of the same emitter; it calls, oldest
    first, the callbacks that are subscribed to the topic when it starts.
    The subscribers of the request topics belong to other modules: for them
    the message is recorded in [published]. *)
Definition emit (topic : string) (message : Message) (w : World) : World :=
  fold_left (deliver_to topic message) (callbacks w) (log_published topic message w).

(** ** mnemonic.ts: the three channels *)

(** [new Promise((resolve, reject) => ...)] awaited by the caller: the
    promise is the one of the closure with reference [p]. *)
Definition await_promise (p : nat) : Task JsValue :=
  AwaitPromise p (fun o w => (w, Settled o)).

(** [getPasswordByNotification(sdk, auth)] (lines 113-141): the id is the
    time stamp, the prompt is published before the closure is subscribed. *)
Definition getPasswordByNotification (auth : AuthState) : Async JsValue :=
  fun w =>
    let id := clock w in
    let p := next_ref w in
    let w := bump_ref w in
    let w := emit "getPassword"
               {| method := "getPassword"; msg_id := Some id;
                  params := VObject [("auth", auth_to_js auth)] |} w in
    let onCallback := {| l_ref := p; l_id := id; l_expect := ExpectString |} in
    let w := on "response" onCallback w in
    (w, await_promise p).

(** [pairSignerByNotification(sdk, boc)] (lines 143-171) *)
Definition pairSignerByNotification (boc : string) : Async JsValue :=
  fun w =>
    let id := clock w in
    let p := next_ref w in
    let w := bump_ref w in
    let w := emit "signer"
               {| method := "signer"; msg_id := Some id; params := VString boc |} w in
    let onCallback := {| l_ref := p; l_id := id; l_expect := ExpectString |} in
    let w := on "response" onCallback w in
    (w, await_promise p).

(** [pairLedgerByNotification(sdk, path, transaction)] (lines 173-205) *)
Definition pairLedgerByNotification (path : list Z) (transaction : JsValue)
  : Async JsValue :=
  fun w =>
    let id := clock w in
    let p := next_ref w in
    let w := bump_ref w in
    let w := emit "ledger"
               {| method := "ledger"; msg_id := Some id;
                  params := VObject [("path", VArray (map VNumber path));
                                     ("transaction", transaction)] |} w in
    let onCallback := {| l_ref := p; l_id := id; l_expect := ExpectObject |} in
    let w := on "response" onCallback w in
    (w, await_promise p).

(** ** mnemonic.ts: secret provider and signer factory *)

Record KeyPair : Type := {
  kp_publicKey : string;
  secretKey : string
}.

(** The services of [@tonkeeper/core], [@ton/crypto] and the platform that
    [mnemonic.ts] calls; their code is not part of the sources. *)
Class Platform : Type := {
  getWalletAuthState : Storage → string → Outcome AuthState;
  getWalletMnemonic : Storage → string → JsValue → Outcome (list string);
  keychain : option (string → Outcome string);
  mnemonicToPrivateKey : list string → Outcome KeyPair;
  sign : string → string → string;
  parseSignerSignature : JsValue → Outcome string;
  storeTransactionAndCreateDeepLink :
    Storage → string → string → Storage * Outcome string
}.

(** [s.split(' ')] *)
Fixpoint split_space (s : string) : list string :=
  match s with
  | EmptyString => [""]
  | String c rest =>
      if Ascii.eqb c Ascii.Space then "" :: split_space rest
      else match split_space rest with
           | [] => [String c ""]
           | word :: words => String c word :: words
           end
  end.

(** A synchronous call that returns or throws. *)
Definition lift {A} (o : Outcome A) : Async A := fun w => (w, Settled o).

(** [Signer = CellSigner | LedgerSigner]: a callable with a [type] tag. *)
Inductive Signer : Type :=
| CellSigner (callback : Cell → Async string)
| LedgerSigner (callback : list Z → JsValue → Async JsValue).

Definition signer_type (s : Signer) : string :=
  match s with
  | CellSigner _ => "cell"
  | LedgerSigner _ => "ledger"
  end.

Section Mnemonic.
Context `{Platform}.

(** [getMnemonic(sdk, publicKey)] (lines 90-111) *)
Definition getMnemonic (publicKey : string) : Async (list string) :=
  auth <- await_io (fun w => (w, getWalletAuthState (storage w) publicKey)) ;;
  match auth with
  | AuthNone =>
      await_io (fun w =>
        (w, getWalletMnemonic (storage w) publicKey (VString (auth_kind auth))))
  | AuthPassword =>
      password <- getPasswordByNotification auth ;;
      await_io (fun w => (w, getWalletMnemonic (storage w) publicKey password))
  | AuthKeychain =>
      match keychain with
      | None => throw (VError "Keychain is undefined")
      | Some getPassword =>
          mnemonic <- await_io (fun w => (w, getPassword publicKey)) ;;
          ret (split_space mnemonic)
      end
  | _ => throw (VError "Unexpected auth method")
  end.

(** [getSigner(sdk, publicKey)] (lines 39-88) *)
Definition getSigner (publicKey : string) : Async Signer :=
  auth <- await_io (fun w => (w, getWalletAuthState (storage w) publicKey)) ;;
  match auth with
  | AuthSigner =>
      ret (CellSigner (fun message =>
        result <- pairSignerByNotification (cell_boc_base64 message) ;;
        lift (parseSignerSignature result)))
  | AuthLedger =>
      ret (LedgerSigner (fun path transaction =>
        pairLedgerByNotification path transaction))
  | AuthSignerDeepLink =>
      ret (CellSigner (fun message =>
        deeplink <- await_io (fun w =>
          let (s, o) := storeTransactionAndCreateDeepLink
                          (storage w) publicKey (cell_boc_base64 message) in
          (set_storage s w, o)) ;;
        _ <- (fun w => (set_location deeplink w, Settled (Fulfilled tt))) ;;
        _ <- delay 2000 ;;
        throw (VError "Navigate to deeplink")))
  | _ =>
      mnemonic <- getMnemonic publicKey ;;
      ret (CellSigner (fun message =>
        keyPair <- await_io (fun w => (w, mnemonicToPrivateKey mnemonic)) ;;
        ret (sign (cell_hash message) (secretKey keyPair))))
  end.
End Mnemonic.

(** ** tonConnect.ts: the per-wallet disconnect *)

(** The argument [connection: AccountConnection | 'all']. *)
Inductive Target : Type :=
| All
| One (c : AccountConnection).

(** [c.clientSessionId !== item.clientSessionId] *)
Definition session_differs (c item : AccountConnection) : bool :=
  negb (String.eqb (clientSessionId c) (clientSessionId item)).

(** The two values [disconnectFromWallet] computes from the list it read:
    [connectionsToDisconnect] and the list it writes back. *)
Definition connectionsToDisconnect (connection : Target)
    (connections : list AccountConnection) : list AccountConnection :=
  match connection with
  | All => connections
  | One c => [c]
  end.

Definition retained (connection : Target)
    (connections : list AccountConnection) : list AccountConnection :=
  match connection with
  | All => []
  | One _ =>
      List.filter
        (fun item =>
           forallb (fun c => session_differs c item)
                   (connectionsToDisconnect connection connections))
        connections
  end.

(** [disconnectFromWallet(storage, connection, wallet)]; [storage] is the
    storage of the world. *)
Definition disconnectFromWallet (connection : Target) (wallet : TonWalletStandard)
  : Async (list AccountConnection) :=
  connections <- await_io (fun w =>
      (w, Fulfilled (getTonWalletConnections (storage w) wallet))) ;;
  let removed := connectionsToDisconnect connection connections in
  let connections := retained connection connections in
  _ <- await_io (fun w =>
      (set_storage (setAccountConnection (storage w) wallet connections) w,
       Fulfilled tt)) ;;
  ret removed.

(** ** tonConnect.ts: the disconnect mutation *)

(** What [useDisconnectTonConnectApp] closes over. *)
Record DisconnectContext : Type := {
  targetEnv : string;                 (* sdk.targetEnv *)
  has_notifications : bool;           (* sdk.notifications is defined *)
  active_wallet : TonContract;        (* useActiveWallet() *)
  accounts_state : list Account;      (* useAccountsState() *)
  skipEmit : bool                     (* options?.skipEmit *)
}.

(** [accounts.flatMap(a => a.allTonWallets)], [accounts] being the standard
    accounts. *)
Definition fan_out_wallets (ctx : DisconnectContext) : list TonWalletStandard :=
  flat_map allTonWallets (List.filter account_standard (accounts_state ctx)).

(** [calls.map(call => call())]: each call is started, in order, and runs
    to its first [await]. *)
Fixpoint start_all {A} (calls : list (Async A)) (w : World) : World * list (Task A) :=
  match calls with
  | [] => (w, [])
  | call :: rest =>
      let (w1, t) := call w in
      let (w2, ts) := start_all rest w1 in
      (w2, t :: ts)
  end.

(** The event loop completes the platform call that task [i] awaits. *)
Definition advance {A} (st : World * list (Task A)) (i : nat) : World * list (Task A) :=
  match st.2 !! i with
  | Some (AwaitIO k) => let (w1, t) := k st.1 in (w1, <[i := t]> st.2)
  | _ => st
  end.

(** The pending calls under a schedule: the order in which their platform
    calls complete. *)
Definition run_pool {A} (schedule : list nat) (st : World * list (Task A))
  : World * list (Task A) :=
  fold_left advance schedule st.

Definition fulfilled_value {A} (t : Task A) : option A :=
  match t with
  | Settled (Fulfilled a) => Some a
  | _ => None
  end.

Definition rejection {A} (t : Task A) : option JsValue :=
  match t with
  | Settled (Rejected e) => Some e
  | _ => None
  end.

(** [await Promise.all(tasks)]: pending until a task is rejected or all are
    fulfilled; the values come in the order of the tasks.  (Of several
    rejected tasks the first of the list is taken; the calls pooled in this
    file do not reject.) *)
Definition promise_all {A} (ts : list (Task A)) : option (Outcome (list A)) :=
  match head (omap rejection ts) with
  | Some e => Some (Rejected e)
  | None => Fulfilled <$> mapM fulfilled_value ts
  end.

(** Lines 193-204 of the mutation: the value of [connectionsToDisconnect].
    [schedule] is the order in which the storage calls of the pooled
    per-wallet disconnects complete. *)
Definition collectDisconnected (ctx : DisconnectContext) (schedule : list nat)
    (connection : Target) (wallet : TonWalletStandard)
  : World → World * option (Outcome (list AccountConnection)) :=
  fun w =>
    if negb (String.eqb (targetEnv ctx) "extension")
    then call_alone (disconnectFromWallet connection wallet) w
    else
      let (w1, pool) :=
        run_pool schedule
          (start_all (map (disconnectFromWallet connection) (fan_out_wallets ctx)) w) in
      (w1,
       match promise_all pool with
       | Some (Fulfilled lists) => Some (Fulfilled (concat lists))
       | Some (Rejected e) => Some (Rejected e)
       | None => None
       end).

(** Lines 206-218: the broadcast on [tonConnectAppManuallyDisconnected$] and
    the unsubscriptions, whose failures are only logged. *)
Definition after_disconnect (ctx : DisconnectContext)
    (removed : list AccountConnection) (w : World) : World :=
  let w := if skipEmit ctx then w else log_disconnected removed w in
  if has_notifications ctx
  then log_unsubscribed (map clientSessionId removed) w
  else w.

(** The mutation of [useDisconnectTonConnectApp]: the function it gives to
    [useMutation].  The invalidation of the query cache at its end is not
    modelled. *)
Definition useDisconnectTonConnectApp (ctx : DisconnectContext) (schedule : list nat)
    (connection : Target) : World → World * option (Outcome unit) :=
  fun w =>
    match active_wallet ctx with
    | OtherContract _ =>
        (w, Some (Rejected (VError "Only standard ton wallets can be disconnected")))
    | StandardWallet wallet =>
        let (w1, collected) := collectDisconnected ctx schedule connection wallet w in
        match collected with
        | Some (Fulfilled removed) =>
            (after_disconnect ctx removed w1, Some (Fulfilled tt))
        | Some (Rejected e) => (w1, Some (Rejected e))
        | None => (w1, None)
        end
    end.

(** ** The event loop around one pending call *)

(** What can happen while a call is suspended: another party publishes on
    the ['response'] topic, the clock moves, the platform call the task
    awaits completes, or a timer is due. *)
Inductive Event : Type :=
| EvResponse (m : Message)
| EvClock (t : Z)
| EvIO
| EvTimer.

(** A task that awaits a settled promise goes on with its outcome. *)
Definition resume {A} (st : World * Task A) : World * Task A :=
  match st.2 with
  | AwaitPromise p k =>
      match promise_state p st.1 with
      | Some o => k o st.1
      | None => st
      end
  | _ => st
  end.

(** One turn of the event loop. *)
Definition step {A} (st : World * Task A) (ev : Event) : World * Task A :=
  match ev with
  | EvResponse m => resume (emit "response" m st.1, st.2)
  | EvClock t => (set_clock t st.1, st.2)
  | EvIO =>
      match st.2 with
      | AwaitIO k => resume (k st.1)
      | _ => st
      end
  | EvTimer =>
      match st.2 with
      | AwaitDelay deadline k =>
          if deadline <=? clock st.1 then resume (k st.1) else st
      | _ => st
      end
  end.

(** The pending call after the events [evs], in order. *)
Definition run {A} (evs : list Event) (st : World * Task A) : World * Task A :=
  fold_left step evs st.

(** ** Histories of the channel *)

(** What happens on the channel: this code opens a request, another party
    publishes on ['response'], or the clock moves. *)
Inductive Action : Type :=
| CallGetPassword (auth : AuthState)
| CallPairSigner (boc : string)
| CallPairLedger (path : list Z) (transaction : JsValue)
| Respond (m : Message)
| SetClock (t : Z).

Definition act (w : World) (a : Action) : World :=
  match a with
  | CallGetPassword auth => (getPasswordByNotification auth w).1
  | CallPairSigner boc => (pairSignerByNotification boc w).1
  | CallPairLedger path transaction => (pairLedgerByNotification path transaction w).1
  | Respond m => emit "response" m w
  | SetClock t => set_clock t w
  end.

(** The world after the actions [acts], in order, from [w]. *)
Definition history (acts : list Action) (w : World) : World :=
  fold_left act acts w.

(** * Vocabulary of the properties *)

(** A world in which nothing has happened yet, and the same world with one
    stored connection list. *)
Definition empty_storage : Storage :=
  {| connection_sets := ∅; entries := ∅ |}.

Definition empty_world : World :=
  {| clock := 0; storage := empty_storage; location := None;
     callbacks := []; published := []; next_ref := 0%nat; settle_log := [];
     disconnected := []; unsubscribed := [] |}.

Definition world_with (wallet : TonWalletStandard) (items : list AccountConnection)
  : World :=
  set_storage (setAccountConnection empty_storage wallet items) empty_world.

(** A world with storage [s] and clock [t] in which the channel has not
    been used. *)
Definition fresh_world (s : Storage) (t : Z) : World :=
  set_clock t (set_storage s empty_world).

(** The connection set of a wallet as the application reads it. *)
Definition stored (w : World) (wallet : TonWalletStandard) : list AccountConnection :=
  getTonWalletConnections (storage w) wallet.

(** The request of the closure [l] is outstanding: [l] is subscribed. *)
Definition outstanding (w : World) (l : Listener) : Prop :=
  ("response", l) ∈ callbacks w.

(** What the closure does to its promise with the [params] of a response. *)
Definition settle_with (e : Expect) (v : JsValue) : Outcome JsValue :=
  if accepts e v then Fulfilled v else Rejected v.

(** The subscription [s] is called by [emit topic m] and its id matches. *)
Definition hit (topic : string) (m : Message) (s : string * Listener) : bool :=
  String.eqb s.1 topic && id_matches m (l_id s.2).

(** What the three channel functions do to the world, for their topic,
    payload and test. *)
Definition open_channel (topic : string) (payload : JsValue) (expect : Expect)
    (w : World) : World :=
  on "response" {| l_ref := next_ref w; l_id := clock w; l_expect := expect |}
     (emit topic {| method := topic; msg_id := Some (clock w); params := payload |}
           (bump_ref w)).

(** The invariant of the channel: the closures subscribed by this code are
    on ['response'], have distinct references below the next fresh one, and
    their promises have seen no [resolve] or [reject] yet. *)
Record channel_inv (w : World) : Prop := {
  inv_topic : ∀ sub, sub ∈ callbacks w → sub.1 = "response";
  inv_bound : ∀ sub, sub ∈ callbacks w → (l_ref sub.2 < next_ref w)%nat;
  inv_pending : ∀ sub, sub ∈ callbacks w → calls (l_ref sub.2) w = [];
  inv_nodup : NoDup (map (fun sub : string * Listener => l_ref sub.2) (callbacks w));
  inv_log : ∀ entry, entry ∈ settle_log w → (entry.1 < next_ref w)%nat
}.

(** The promise [p] exists and none of the subscribed closures owns it. *)
Definition detached (p : nat) (w : World) : Prop :=
  (p < next_ref w)%nat ∧ ∀ sub, sub ∈ callbacks w → l_ref sub.2 ≠ p.

(** The first response among [evs] that carries the id [id]. *)
Fixpoint first_response (id : Z) (evs : list Event) : option Message :=
  match evs with
  | [] => None
  | EvResponse m :: rest =>
      if id_matches m id then Some m else first_response id rest
  | _ :: rest => first_response id rest
  end.

(** Whether, among [evs], a timer event comes at a time when the clock,
    [now] at first, has reached [deadline]. *)
Fixpoint timer_fired (deadline now : Z) (evs : list Event) : bool :=
  match evs with
  | [] => false
  | EvClock t :: rest => timer_fired deadline t rest
  | EvTimer :: rest => (deadline <=? now) || timer_fired deadline now rest
  | _ :: rest => timer_fired deadline now rest
  end.

(** The world after the events [evs] when no call is resumed by them. *)
Definition world_after (evs : list Event) (w : World) : World :=
  fold_left
    (fun w ev =>
       match ev with
       | EvResponse m => emit "response" m w
       | EvClock t => set_clock t w
       | _ => w
       end)
    evs w.

(** A task that can only end by throwing, whatever it is resumed with. *)
Inductive rejects_only {A : Type} : Task A → Prop :=
| ro_settled (e : JsValue) : rejects_only (Settled (Rejected e))
| ro_io (k : World → World * Task A) :
    (∀ w, rejects_only (k w).2) → rejects_only (AwaitIO k)
| ro_promise (p : nat) (k : Outcome JsValue → World → World * Task A) :
    (∀ o w, rejects_only (k o w).2) → rejects_only (AwaitPromise p k)
| ro_delay (d : Z) (k : World → World * Task A) :
    (∀ w, rejects_only (k w).2) → rejects_only (AwaitDelay d k).

(** The two suspended states of [disconnectFromWallet]: before its read,
    and before its write, having read [connections]. *)
Definition dfw_writing (connection : Target) (wallet : TonWalletStandard)
    (connections : list AccountConnection) : Task (list AccountConnection) :=
  AwaitIO (fun w =>
    (set_storage
       (setAccountConnection (storage w) wallet (retained connection connections)) w,
     Settled (Fulfilled (connectionsToDisconnect connection connections)))).

Definition dfw_reading (connection : Target) (wallet : TonWalletStandard)
  : Task (list AccountConnection) :=
  AwaitIO (fun w =>
    (w, dfw_writing connection wallet (getTonWalletConnections (storage w) wallet))).

(** The schedule under which every pooled call reads before any writes. *)
Definition reads_then_writes (n : nat) : list nat := seq 0 n ++ seq 0 n.

(** What a pooled call can have read from the set of [wallet], the world
    having been [w0] when the pool started: the set of then, or that set
    after a disconnect has been written to it. *)
Definition seen (connection : Target) (w0 : World) (wallet : TonWalletStandard)
    (connections : list AccountConnection) : Prop :=
  connections = stored w0 wallet ∨
  connections = retained connection (stored w0 wallet).

(** The states of the pooled call for [wallet] in the world [w]; [distinct]
    says that no two pooled wallets share an id. *)
Inductive pool_task_ok (connection : Target) (w0 w : World) (distinct : Prop)
    (wallet : TonWalletStandard) : Task (list AccountConnection) → Prop :=
| ok_reading :
    (distinct → stored w wallet = stored w0 wallet) →
    pool_task_ok connection w0 w distinct wallet (dfw_reading connection wallet)
| ok_writing (cs : list AccountConnection) :
    seen connection w0 wallet cs →
    (distinct → cs = stored w0 wallet ∧ stored w wallet = stored w0 wallet) →
    pool_task_ok connection w0 w distinct wallet (dfw_writing connection wallet cs)
| ok_done (cs : list AccountConnection) :
    seen connection w0 wallet cs →
    stored w wallet = retained connection (stored w0 wallet) →
    (distinct → cs = stored w0 wallet) →
    pool_task_ok connection w0 w distinct wallet
      (Settled (Fulfilled (connectionsToDisconnect connection cs))).

Record pool_inv (connection : Target) (w0 : World) (wallets : list TonWalletStandard)
    (st : World * list (Task (list AccountConnection))) : Prop := {
  pool_tasks :
    Forall2 (pool_task_ok connection w0 st.1 (NoDup (map wallet_id wallets)))
            wallets st.2;
  pool_seen : ∀ wallet, seen connection w0 wallet (stored st.1 wallet);
  pool_frame :
    ∀ wallet, wallet_id wallet ∉ map wallet_id wallets →
              stored st.1 wallet = stored w0 wallet;
  pool_logs :
    disconnected st.1 = disconnected w0 ∧ unsubscribed st.1 = unsubscribed w0
}.

(** The world after the writes of the pooled calls, each having read
    [connections_of wallet], in the order of the wallets. *)
Definition after_writes (connection : Target)
    (connections_of : TonWalletStandard → list AccountConnection)
    (wallets : list TonWalletStandard) (w : World) : World :=
  fold_left
    (fun w wallet =>
       set_storage
         (setAccountConnection (storage w) wallet
            (retained connection (connections_of wallet))) w)
    wallets w.

(** The claim without the guard, in its weakest reading: in an extension
    the mutation can complete, every tracked wallet then holding what its
    per-wallet disconnect leaves. *)
Definition fans_out_in_every_extension : Prop :=
  ∀ (ctx : DisconnectContext) (connection : Target) (w : World),
    targetEnv ctx = "extension" →
    ∃ schedule w',
      useDisconnectTonConnectApp ctx schedule connection w = (w', Some (Fulfilled tt)) ∧
      ∀ wallet, wallet ∈ fan_out_wallets ctx →
        stored w' wallet =
        stored (call_alone (disconnectFromWallet connection wallet) w).1 wallet.

(** * Scenarios *)

(** The connections of the scenarios: sessions [a] and [b] of wallet [W]. *)
Definition conn_a : AccountConnection :=
  {| clientSessionId := "a"; webViewUrl := None; manifestUrl := "https://a.example" |}.
Definition conn_b : AccountConnection :=
  {| clientSessionId := "b"; webViewUrl := None; manifestUrl := "https://b.example" |}.
Definition wallet_W : TonWalletStandard :=
  {| wallet_id := "W"; publicKey := "pkW"; rawAddress := "0:W" |}.
Definition wallet_V : TonWalletStandard :=
  {| wallet_id := "V"; publicKey := "pkV"; rawAddress := "0:V" |}.


(** The scenario of the channel: a password prompt opened at time 0 and a
    ledger request opened at time 5, with their closures. *)
Definition two_requests : list Action :=
  [CallGetPassword AuthPassword; SetClock 5; CallPairLedger [44] (VObject [])].
Definition password_waiter : Listener :=
  {| l_ref := 0; l_id := 0; l_expect := ExpectString |}.
Definition ledger_waiter : Listener :=
  {| l_ref := 1; l_id := 5; l_expect := ExpectObject |}.
Definition password_response : Message :=
  {| method := "response"; msg_id := Some 0; params := VString "secret" |}.

(** A platform for the scenarios: every wallet has the auth state [auth]. *)
Definition scenario_platform (auth : AuthState) : Platform :=
  {| getWalletAuthState := fun _ _ => Fulfilled auth;
     getWalletMnemonic := fun _ _ _ => Fulfilled ["abandon"; "ability"];
     keychain := None;
     mnemonicToPrivateKey := fun _ =>
       Fulfilled {| kp_publicKey := "public"; secretKey := "secret" |};
     sign := fun hash key => hash +:+ key;
     parseSignerSignature := fun v =>
       match v with
       | VString s => Fulfilled s
       | _ => Rejected (VError "Invalid signature")
       end;
     storeTransactionAndCreateDeepLink := fun s publicKey boc =>
       ({| connection_sets := connection_sets s;
           entries := <["pending_" +:+ publicKey := VString boc]> (entries s) |},
        Fulfilled ("tonsign://v1/?boc=" +:+ boc)) |}.

Definition scenario_cell : Cell :=
  {| cell_boc_base64 := "te6cckEBAQEAAgAAAEysuc0="; cell_hash := "hash" |}.

(** An extension whose active contract is not a standard wallet, with one
    standard account that holds wallet [W]. *)
Definition extension_other_contract : DisconnectContext :=
  {| targetEnv := "extension"; has_notifications := true;
     active_wallet := OtherContract "multisig";
     accounts_state :=
       [{| account_standard := true; allTonWallets := [wallet_W] |}];
     skipEmit := false |}.

(** An extension with wallet [W] active and wallets [W] and [V] tracked. *)
Definition extension_two_wallets : DisconnectContext :=
  {| targetEnv := "extension"; has_notifications := true;
     active_wallet := StandardWallet wallet_W;
     accounts_state :=
       [{| account_standard := true; allTonWallets := [wallet_W] |};
        {| account_standard := false; allTonWallets := [] |};
        {| account_standard := true; allTonWallets := [wallet_V] |}];
     skipEmit := false |}.

Definition world_W_V : World :=
  set_storage
    (setAccountConnection (setAccountConnection empty_storage wallet_W [conn_a; conn_b])
       wallet_V [conn_a])
    empty_world.


(** * Further vocabulary *)

(** The promise [p] is accounted for: its closure is subscribed and it has
    seen no call, or no closure owns it any more and it has seen one call. *)
Definition accounted (w : World) (p : nat) : Prop :=
  (∃ l, outstanding w l ∧ l_ref l = p ∧ calls p w = []) ∨
  (detached p w ∧ ∃ o, calls p w = [o]).

(** The test of the closure a request action subscribes. *)
Definition action_expect (a : Action) : option Expect :=
  match a with
  | CallGetPassword _ => Some ExpectString
  | CallPairSigner _ => Some ExpectString
  | CallPairLedger _ _ => Some ExpectObject
  | Respond _ => None
  | SetClock _ => None
  end.

(** * mnemonic.ts: signing a buffer *)

(** [sha256_sync] of [@ton/crypto] and [nacl.sign.detached] of [tweetnacl];
    their code is not part of the sources. *)
Class Crypto : Type := {
  sha256_sync : string → string;
  nacl_sign_detached : string → string → string
}.

(** [signTonConnectOver(sdk, publicKey)(bufferToSign)] (lines 16-37) *)
Definition signTonConnectOver `{Platform} `{Crypto} (publicKey : string)
    (bufferToSign : string) : Async string :=
  auth <- await_io (fun w => (w, getWalletAuthState (storage w) publicKey)) ;;
  match auth with
  | AuthSigner => throw (VError "Signer linked by QR is not support sign buffer.")
  | AuthSignerDeepLink =>
      throw (VError "Signer linked by deep link is not support sign buffer.")
  | _ =>
      mnemonic <- getMnemonic publicKey ;;
      keyPair <- await_io (fun w => (w, mnemonicToPrivateKey mnemonic)) ;;
      ret (nacl_sign_detached (sha256_sync bufferToSign) (secretKey keyPair))
  end.

(** [s] has no space in it. *)
Fixpoint space_free (s : string) : bool :=
  match s with
  | EmptyString => true
  | String c rest => negb (Ascii.eqb c Ascii.Space) && space_free rest
  end.

(** A platform whose keychain holds [phrase] for every key and whose
    wallets have the auth state [keychain]. *)
Definition keychain_platform (phrase : string) : Platform :=
  {| getWalletAuthState := fun _ _ => Fulfilled AuthKeychain;
     getWalletMnemonic := fun _ _ _ => Rejected (VError "not stored");
     keychain := Some (fun _ => Fulfilled phrase);
     mnemonicToPrivateKey := fun _ =>
       Fulfilled {| kp_publicKey := "public"; secretKey := "secret" |};
     sign := fun hash key => hash +:+ key;
     parseSignerSignature := fun v =>
       match v with
       | VString s => Fulfilled s
       | _ => Rejected (VError "Invalid signature")
       end;
     storeTransactionAndCreateDeepLink := fun s _ _ =>
       (s, Rejected (VError "no deep link")) |}.

Definition scenario_crypto : Crypto :=
  {| sha256_sync := fun buffer => "sha256(" +:+ buffer +:+ ")";
     nacl_sign_detached := fun hash key => "sig(" +:+ hash +:+ "," +:+ key +:+ ")" |}.

(** * tonConnect.ts: the connections shown for the active wallet *)

(** [wallet.id] of a [TonContract]. *)
Definition contract_id (c : TonContract) : string :=
  match c with
  | StandardWallet w => wallet_id w
  | OtherContract id => id
  end.

(** [i.webViewUrl !== item.webViewUrl], the urls being strings or
    [undefined]. *)
Definition url_differs (i item : AccountConnection) : bool :=
  match webViewUrl i, webViewUrl item with
  | Some a, Some b => negb (String.eqb a b)
  | None, None => false
  | _, _ => true
  end.

(** The body of the [forEach]: [item] is pushed when no member of [set]
    has its url. *)
Definition push_unless_shown (set : list AccountConnection) (item : AccountConnection)
  : list AccountConnection :=
  if forallb (fun i => url_differs i item) set then set ++ [item] else set.

(** [useActiveWalletTonConnectConnections()] (lines 65-89): its [data], from
    the target, the active wallet and the [data] of
    [useAppTonConnectConnections]. *)
Definition useActiveWalletTonConnectConnections (target : string) (wallet : TonContract)
    (appConnections : option (list (TonWalletStandard * list AccountConnection)))
  : option (list AccountConnection) :=
  match appConnections with
  | None => None
  | Some appConnections =>
      if String.eqb target "extension" then
        let connection := flat_map snd appConnections in
        Some (fold_left push_unless_shown connection [])
      else
        match List.find (fun c => String.eqb (wallet_id c.1) (contract_id wallet))
                        appConnections with
        | Some connection => Some connection.2
        | None => None
        end
  end.

(** Connections of the scenarios with a url. *)
Definition conn_site (session url : string) : AccountConnection :=
  {| clientSessionId := session; webViewUrl := Some url; manifestUrl := url |}.

(** A browser build with wallet [W] active, a notification service, and
    [skipEmit] set. *)
Definition web_skip_emit : DisconnectContext :=
  {| targetEnv := "web"; has_notifications := true;
     active_wallet := StandardWallet wallet_W;
     accounts_state :=
       [{| account_standard := true; allTonWallets := [wallet_W; wallet_V] |}];
     skipEmit := true |}.

(** * tonConnect.ts: the connect mutation *)

(** An item of [request.items]: [{ name: 'ton_addr' }] or
    [{ name: 'ton_proof', payload }]. *)
Record ConnectItem : Type := {
  item_name : string;
  item_payload : string
}.

Record ConnectRequest : Type := {
  request_manifestUrl : string;
  request_items : list ConnectItem
}.

Record DAppManifest : Type := {
  manifest_url : string;
  manifest_name : string
}.

(** The session parameters [getTonConnectParams] derives from a request. *)
Record TonConnectParams : Type := {
  protocolVersion : Z;
  params_clientSessionId : string
}.

(** The active account: [account.id], [account.type] and
    [account.activeTonWallet]. *)
Record ActiveAccount : Type := {
  account_id : string;
  account_type : string;
  activeTonWallet : TonContract
}.

(** [sdk.notifications], called with the wallet whose [rawAddress] is
    passed. *)
Record NotificationService : Type := {
  subscribed : TonContract → Outcome bool;
  subscribeTonConnect : string → string → Outcome unit
}.

(** The services the connect mutation calls; their code is not part of the
    sources.  [toTonProofItemReply] is given the signing closure and may
    await anything; [url_host] is [new URL(url).host], which throws on a
    malformed url; [topMessage] is [sdk.topMessage]. *)
Class ConnectServices : Type := {
  getTonConnectParams : ConnectRequest → Outcome TonConnectParams;
  toTonAddressItemReply : TonContract → string → JsValue;
  getServerTime : World → Outcome Z;
  tonConnectProofPayload : Z → string → string → string → JsValue;
  toTonProofItemReply : ActiveAccount → JsValue → Async JsValue;
  saveAccountConnection :
    Storage → TonContract → DAppManifest → TonConnectParams → option string →
    Storage * Outcome unit;
  notifications : option NotificationService;
  url_host : string → Outcome string;
  topMessage : string → World → World
}.

(** [try { m } catch (e) { h(e) }] *)
Fixpoint catch_task {A} (t : Task A) (h : JsValue → Async A) (w : World)
  : World * Task A :=
  match t with
  | Settled (Fulfilled a) => (w, Settled (Fulfilled a))
  | Settled (Rejected e) => h e w
  | AwaitIO k =>
      (w, AwaitIO (fun w1 => let (w2, t2) := k w1 in catch_task t2 h w2))
  | AwaitPromise p k =>
      (w, AwaitPromise p (fun o w1 => let (w2, t2) := k o w1 in catch_task t2 h w2))
  | AwaitDelay d k =>
      (w, AwaitDelay d (fun w1 => let (w2, t2) := k w1 in catch_task t2 h w2))
  end.

Definition try_catch {A} (m : Async A) (h : JsValue → Async A) : Async A :=
  fun w => let (w1, t) := m w in catch_task t h w1.

Section Connect.
Context `{ConnectServices}.
Variables (account : ActiveAccount) (network : string).
Variables (manifest : DAppManifest) (webViewUrl : option string).

(** The [for] loop over [request.items] (lines 116-148); [result] is the
    array built so far. *)
Fixpoint connect_items (items : list ConnectItem) (result : list JsValue)
  : Async (list JsValue) :=
  match items with
  | [] => ret result
  | item :: rest =>
      let wallet := activeTonWallet account in
      let result :=
        if String.eqb (item_name item) "ton_addr"
        then (result ++ [toTonAddressItemReply wallet network])%list
        else result in
      if String.eqb (item_name item) "ton_proof" then
        (* [!isStandardTonWallet(wallet) || activeIsLedger] *)
        match wallet with
        | OtherContract _ =>
            throw (VError "Current wallet doesn't support connection to the service")
        | StandardWallet standard =>
            if String.eqb (account_type account) "ledger" then
              throw (VError "Current wallet doesn't support connection to the service")
            else
              timestamp <- await_io (fun w => (w, getServerTime w)) ;;
              let proof :=
                tonConnectProofPayload timestamp
                  (default (manifest_url manifest) webViewUrl)
                  (rawAddress standard) (item_payload item) in
              reply <- toTonProofItemReply account proof ;;
              connect_items rest (result ++ [reply])%list
        end
      else connect_items rest result
  end.

(** The [catch] of the notification block: the message of an [Error] is
    shown; nothing is thrown on. *)
Definition show_error (e : JsValue) : Async unit :=
  fun w =>
    (match e with
     | VError message => topMessage message w
     | _ => w
     end,
     Settled (Fulfilled tt)).

(** The mutation of [useConnectTonConnectAppMutation] (lines 109-176).  The
    invalidation of the query cache at its end is not modelled. *)
Definition useConnectTonConnectAppMutation (request : ConnectRequest)
  : Async (list JsValue) :=
  let wallet := activeTonWallet account in
  params <- await_io (fun w => (w, getTonConnectParams request)) ;;
  result <- connect_items (request_items request) [] ;;
  _ <- await_io (fun w =>
         let (s, o) :=
           saveAccountConnection (storage w) wallet manifest params webViewUrl in
         (set_storage s w, o)) ;;
  _ <- match notifications with
       | Some service =>
           try_catch
             (enable <- await_io (fun w => (w, subscribed service wallet)) ;;
              if enable : bool then
                host <- lift (url_host (manifest_url manifest)) ;;
                await_io (fun w =>
                  (w, subscribeTonConnect service
                        (params_clientSessionId params) host))
              else ret tt)
             show_error
       | None => ret tt
       end ;;
  ret result.
End Connect.

(** The items of a request that ask for the address, and whether one asks
    for a proof. *)
Definition is_ton_addr (item : ConnectItem) : bool :=
  String.eqb (item_name item) "ton_addr".

Definition is_ton_proof (item : ConnectItem) : bool :=
  String.eqb (item_name item) "ton_proof".

(** Services for the scenarios: [service] is the notification service, if
    any, and [save_fails] tells whether saving a connection fails. *)
Definition scenario_services (service : option NotificationService)
    (save_fails : bool) : ConnectServices :=
  {| getTonConnectParams := fun request =>
       Fulfilled {| protocolVersion := 2;
                    params_clientSessionId := request_manifestUrl request |};
     toTonAddressItemReply := fun wallet net =>
       VObject [("name", VString "ton_addr"); ("network", VString net)];
     getServerTime := fun w => Fulfilled (clock w);
     tonConnectProofPayload := fun timestamp origin address payload =>
       VObject [("timestamp", VNumber timestamp); ("domain", VString origin);
                ("address", VString address); ("payload", VString payload)];
     toTonProofItemReply := fun _ proof =>
       ret (VObject [("name", VString "ton_proof"); ("proof", proof)]);
     saveAccountConnection := fun s wallet manifest params url =>
       if save_fails then (s, Rejected (VError "quota exceeded")) else
       (setAccountConnection s
          {| wallet_id :=
               match wallet with
               | StandardWallet standard => wallet_id standard
               | OtherContract id => id
               end;
             publicKey := ""; rawAddress := "" |}
          [{| clientSessionId := params_clientSessionId params;
              webViewUrl := url; manifestUrl := manifest_url manifest |}],
        Fulfilled tt);
     notifications := service;
     url_host := fun url => Rejected (VError "Invalid URL");
     topMessage := fun _ w => w |}.

Definition failing_notifications : NotificationService :=
  {| subscribed := fun _ => Fulfilled true;
     subscribeTonConnect := fun _ _ => Rejected (VError "offline") |}.

Definition ledger_account : ActiveAccount :=
  {| account_id := "ledger-1"; account_type := "ledger";
     activeTonWallet := StandardWallet wallet_W |}.

Definition mnemonic_account : ActiveAccount :=
  {| account_id := "mnemonic-1"; account_type := "mnemonic";
     activeTonWallet := StandardWallet wallet_W |}.

Definition scenario_manifest : DAppManifest :=
  {| manifest_url := "https://dapp.example"; manifest_name := "dApp" |}.

Definition address_and_proof_request : ConnectRequest :=
  {| request_manifestUrl := "https://dapp.example/manifest.json";
     request_items :=
       [{| item_name := "ton_addr"; item_payload := "" |};
        {| item_name := "ton_proof"; item_payload := "nonce" |}] |}.

Definition address_request : ConnectRequest :=
  {| request_manifestUrl := "https://dapp.example/manifest.json";
     request_items :=
       [{| item_name := "ton_addr"; item_payload := "" |};
        {| item_name := "unknown"; item_payload := "" |}] |}.

(** * Properties *)

(** ** The definitions on small inputs *)

Example split_space_words :
  split_space "abandon ability  able" = ["abandon"; "ability"; ""; "able"].
Proof. reflexivity. Qed.

Example split_space_empty : split_space "" = [""].
Proof. reflexivity. Qed.

Example ledger_test_null : accepts ExpectObject VNull = false.
Proof. reflexivity. Qed.

Example ledger_test_error : accepts ExpectObject (VError "denied") = true.
Proof. reflexivity. Qed.

Example password_test_empty_string : accepts ExpectString (VString "") = true.
Proof. reflexivity. Qed.

Example password_test_error : accepts ExpectString (VError "cancelled") = false.
Proof. reflexivity. Qed.

Example retained_scenario : retained (One conn_a) [conn_a; conn_b] = [conn_b].
Proof. reflexivity. Qed.

Example timer_not_yet : timer_fired 2000 0 [EvTimer; EvClock 1999; EvTimer] = false.
Proof. reflexivity. Qed.

Example timer_due : timer_fired 2000 0 [EvClock 2000; EvTimer] = true.
Proof. reflexivity. Qed.

(** ** The per-wallet disconnect *)

Lemma disconnectFromWallet_alone (connection : Target) (wallet : TonWalletStandard)
    (w : World) :
  call_alone (disconnectFromWallet connection wallet) w =
  (set_storage
     (setAccountConnection (storage w) wallet (retained connection (stored w wallet))) w,
   Some (Fulfilled (connectionsToDisconnect connection (stored w wallet)))).
Proof. reflexivity. Qed.

Lemma stored_set_same (w : World) (wallet : TonWalletStandard)
    (items : list AccountConnection) :
  stored (set_storage (setAccountConnection (storage w) wallet items) w) wallet = items.
Proof.
  unfold stored, getTonWalletConnections, setAccountConnection. simpl.
  by rewrite lookup_insert_eq.
Qed.

Lemma stored_set_other (w : World) (wallet other : TonWalletStandard)
    (items : list AccountConnection) :
  wallet_id other ≠ wallet_id wallet →
  stored (set_storage (setAccountConnection (storage w) wallet items) w) other =
  stored w other.
Proof.
  intros Hne. unfold stored, getTonWalletConnections, setAccountConnection. simpl.
  by rewrite lookup_insert_ne.
Qed.

(** C2: [disconnect(wallet, 'all')] run to its end fulfils with the whole
    connection set the wallet had, and leaves the wallet with the empty
    sequence as its persisted connection set. *)
Theorem disconnect_all_empties_and_returns_prior
    (w : World) (wallet : TonWalletStandard) :
  let (w', result) := call_alone (disconnectFromWallet All wallet) w in
  result = Some (Fulfilled (stored w wallet)) ∧
  stored w' wallet = [] ∧
  connection_sets (storage w') !! wallet_id wallet = Some [].
Proof.
  rewrite disconnectFromWallet_alone. split; [done|]. split.
  - apply stored_set_same.
  - simpl. by rewrite lookup_insert_eq.
Qed.

Lemma retained_one (c : AccountConnection) (connections : list AccountConnection) :
  retained (One c) connections =
  List.filter (fun item => session_differs c item) connections.
Proof.
  simpl. apply List.filter_ext. intros item. by rewrite andb_true_r.
Qed.

Lemma filter_sublist {A} (f : A → bool) (l : list A) : sublist (List.filter f l) l.
Proof.
  induction l as [|x l IH]; simpl.
  - constructor.
  - destruct (f x); by constructor.
Qed.

Lemma session_differs_true (c item : AccountConnection) :
  session_differs c item = true ↔ clientSessionId item ≠ clientSessionId c.
Proof.
  unfold session_differs. rewrite negb_true_iff.
  destruct (String.eqb_spec (clientSessionId c) (clientSessionId item)) as [E|E];
    split; intros H; try done; congruence.
Qed.

(** C3: [disconnect(wallet, connection)] with a specific connection keeps, in
    their order and unchanged, exactly the stored entries whose
    [clientSessionId] differs from the target's; the entries with the target's
    [clientSessionId] are the ones removed, whatever the size of the set.
    The sets of the other wallets are not touched. *)
Theorem disconnect_one_removes_only_matching
    (w : World) (wallet : TonWalletStandard) (c : AccountConnection) :
  let (w', _) := call_alone (disconnectFromWallet (One c) wallet) w in
  stored w' wallet =
    List.filter (fun item => negb (String.eqb (clientSessionId c) (clientSessionId item)))
                (stored w wallet) ∧
  sublist (stored w' wallet) (stored w wallet) ∧
  (∀ item, item ∈ stored w' wallet ↔
           item ∈ stored w wallet ∧ clientSessionId item ≠ clientSessionId c) ∧
  (∀ other, wallet_id other ≠ wallet_id wallet → stored w' other = stored w other).
Proof.
  rewrite disconnectFromWallet_alone, stored_set_same, retained_one.
  split; [done|]. split; [apply filter_sublist|]. split.
  - intros item. rewrite list_elem_of_In, List.filter_In, <- list_elem_of_In.
    by rewrite session_differs_true.
  - intros other Hne. by apply stored_set_other.
Qed.

(** The scenario of the specification: [W] has [[a; b]]; disconnecting [a]
    leaves [[b]], and the set of another wallet stays as it was. *)
Lemma disconnect_one_removes_only_matching_witness :
  stored (call_alone (disconnectFromWallet (One conn_a) wallet_W)
            (world_with wallet_W [conn_a; conn_b])).1 wallet_W = [conn_b] ∧
  stored (call_alone (disconnectFromWallet (One conn_a) wallet_W)
            (world_with wallet_W [conn_a; conn_b])).1 wallet_V =
  stored (world_with wallet_W [conn_a; conn_b]) wallet_V.
Proof.
  pose proof (disconnect_one_removes_only_matching
                (world_with wallet_W [conn_a; conn_b]) wallet_W conn_a) as H.
  destruct (call_alone (disconnectFromWallet (One conn_a) wallet_W)
              (world_with wallet_W [conn_a; conn_b])) as [w' r] eqn:E.
  destruct H as (H1 & _ & _ & H4). simpl. split.
  - rewrite H1. vm_compute. reflexivity.
  - apply H4. vm_compute. discriminate.
Defined.

(** C9: two [disconnect(wallet, 'all')] calls in sequence: the persisted set
    is empty after the first and after the second, and the second fulfils
    with the empty removal list. *)
Theorem disconnect_all_twice (w : World) (wallet : TonWalletStandard) :
  let (w1, _) := call_alone (disconnectFromWallet All wallet) w in
  let (w2, second) := call_alone (disconnectFromWallet All wallet) w1 in
  stored w1 wallet = [] ∧ stored w2 wallet = [] ∧ second = Some (Fulfilled []).
Proof.
  rewrite !disconnectFromWallet_alone. simpl retained.
  rewrite !stored_set_same. done.
Qed.

(** C10: [disconnect(wallet, c)] with a specific connection [c] fulfils with
    the one-element list [[c]], the argument itself, whatever is stored; when
    no stored connection has the [clientSessionId] of [c] the set written
    back is the set that was stored. *)
Theorem disconnect_one_returns_argument
    (w : World) (wallet : TonWalletStandard) (c : AccountConnection) :
  let (w', result) := call_alone (disconnectFromWallet (One c) wallet) w in
  result = Some (Fulfilled [c]) ∧
  (forallb (session_differs c) (stored w wallet) = true →
   stored w' wallet = stored w wallet).
Proof.
  rewrite disconnectFromWallet_alone, stored_set_same, retained_one.
  split; [done|]. intros H. by apply List.forallb_filter_id.
Qed.

(** [W] has only [b]; disconnecting [a] reports [a] as removed although it
    was never stored, and [[b]] is written back. *)
Lemma disconnect_one_returns_argument_witness :
  ¬ conn_a ∈ stored (world_with wallet_W [conn_b]) wallet_W ∧
  (call_alone (disconnectFromWallet (One conn_a) wallet_W)
     (world_with wallet_W [conn_b])).2 = Some (Fulfilled [conn_a]) ∧
  stored (call_alone (disconnectFromWallet (One conn_a) wallet_W)
            (world_with wallet_W [conn_b])).1 wallet_W = [conn_b].
Proof.
  pose proof (disconnect_one_returns_argument
                (world_with wallet_W [conn_b]) wallet_W conn_a) as H.
  destruct (call_alone (disconnectFromWallet (One conn_a) wallet_W)
              (world_with wallet_W [conn_b])) as [w' r] eqn:E.
  destruct H as [H1 H2]. simpl. split; [|split].
  - vm_compute. intros Hin. apply list_elem_of_In in Hin.
    destruct Hin as [Hin|[]]. discriminate Hin.
  - exact H1.
  - rewrite H2; vm_compute; reflexivity.
Defined.

(** ** The channel: one response settles one waiter, once *)

Section Emit.
Variables (topic : string) (m : Message).

Lemma deliver_miss acc s : hit topic m s = false → deliver_to topic m acc s = acc.
Proof.
  unfold hit, deliver_to, onCallback. intros Hh.
  destruct (String.eqb s.1 topic); [|done].
  simpl in Hh. by rewrite Hh.
Qed.

Lemma deliver_hit_log acc s :
  hit topic m s = true →
  settle_log (deliver_to topic m acc s) =
  (l_ref s.2, settle_with (l_expect s.2) (params m)) :: settle_log acc.
Proof.
  unfold hit, deliver_to, onCallback, settle_with. intros Hh.
  apply andb_true_iff in Hh as [-> ->].
  by destruct (accepts _ _).
Qed.

Lemma deliver_hit_callbacks acc s :
  hit topic m s = true →
  callbacks (deliver_to topic m acc s) =
  List.filter (fun sub => negb (same_subscription "response" s.2 sub)) (callbacks acc).
Proof.
  unfold hit, deliver_to, onCallback. intros Hh.
  apply andb_true_iff in Hh as [-> ->].
  by destruct (accepts _ _).
Qed.

Lemma deliver_next_ref acc s : next_ref (deliver_to topic m acc s) = next_ref acc.
Proof.
  unfold deliver_to, onCallback.
  destruct (String.eqb _ _); [|done]. destruct (id_matches _ _); [|done].
  by destruct (accepts _ _).
Qed.

Lemma deliver_calls_other acc s p :
  (hit topic m s = true → l_ref s.2 ≠ p) →
  calls p (deliver_to topic m acc s) = calls p acc.
Proof.
  intros Hp. destruct (hit topic m s) eqn:Hh.
  - unfold calls. rewrite deliver_hit_log by done. simpl.
    destruct (Nat.eqb_spec (l_ref s.2) p) as [E|E]; [|done].
    by destruct Hp.
  - by rewrite deliver_miss.
Qed.

Lemma deliver_calls_hit acc s :
  hit topic m s = true →
  calls (l_ref s.2) (deliver_to topic m acc s) =
  settle_with (l_expect s.2) (params m) :: calls (l_ref s.2) acc.
Proof.
  intros Hh. unfold calls. rewrite deliver_hit_log by done. simpl.
  by rewrite Nat.eqb_refl.
Qed.

Lemma deliver_subset acc s sub :
  sub ∈ callbacks (deliver_to topic m acc s) → sub ∈ callbacks acc.
Proof.
  destruct (hit topic m s) eqn:Hh.
  - rewrite deliver_hit_callbacks by done.
    rewrite !list_elem_of_In, List.filter_In. tauto.
  - by rewrite deliver_miss.
Qed.

Lemma deliver_keeps acc s sub :
  (hit topic m s = true → l_ref s.2 ≠ l_ref sub.2) →
  sub ∈ callbacks acc → sub ∈ callbacks (deliver_to topic m acc s).
Proof.
  intros Hp Hin. destruct (hit topic m s) eqn:Hh.
  - rewrite deliver_hit_callbacks by done.
    rewrite list_elem_of_In, List.filter_In, <- list_elem_of_In.
    split; [done|]. unfold same_subscription.
    apply negb_true_iff, andb_false_iff. right.
    apply Nat.eqb_neq. intros E. by destruct Hp.
  - by rewrite deliver_miss.
Qed.

Lemma deliver_hit_gone acc s l :
  hit topic m s = true → l_ref l = l_ref s.2 →
  ("response", l) ∉ callbacks (deliver_to topic m acc s).
Proof.
  intros Hh Hl. rewrite deliver_hit_callbacks by done.
  rewrite list_elem_of_In, List.filter_In. intros [_ Hf].
  unfold same_subscription in Hf. simpl in Hf.
  rewrite Hl, Nat.eqb_refl in Hf. discriminate.
Qed.

(** The same facts for the whole round of calls. *)
Lemma round_next_ref ls acc :
  next_ref (fold_left (deliver_to topic m) ls acc) = next_ref acc.
Proof.
  revert acc. induction ls as [|s ls IH]; intros acc; simpl; [done|].
  by rewrite IH, deliver_next_ref.
Qed.

Lemma round_calls_other ls acc p :
  (∀ s, s ∈ ls → hit topic m s = true → l_ref s.2 ≠ p) →
  calls p (fold_left (deliver_to topic m) ls acc) = calls p acc.
Proof.
  revert acc. induction ls as [|s ls IH]; intros acc Hp; simpl; [done|].
  rewrite IH.
  - apply deliver_calls_other. apply Hp. left.
  - intros s' Hs'. apply Hp. by right.
Qed.

Lemma round_subset ls acc sub :
  sub ∈ callbacks (fold_left (deliver_to topic m) ls acc) → sub ∈ callbacks acc.
Proof.
  revert acc. induction ls as [|s ls IH]; intros acc; simpl; [done|].
  intros Hin. by eapply deliver_subset, IH.
Qed.

Lemma round_keeps ls acc sub :
  (∀ s, s ∈ ls → hit topic m s = true → l_ref s.2 ≠ l_ref sub.2) →
  sub ∈ callbacks acc → sub ∈ callbacks (fold_left (deliver_to topic m) ls acc).
Proof.
  revert acc. induction ls as [|s ls IH]; intros acc Hp Hin; simpl; [done|].
  apply IH.
  - intros s' Hs'. apply Hp. by right.
  - apply deliver_keeps; [|done]. apply Hp. left.
Qed.

Lemma round_log_refs ls acc entry :
  entry ∈ settle_log (fold_left (deliver_to topic m) ls acc) →
  entry ∈ settle_log acc ∨ ∃ s, s ∈ ls ∧ entry.1 = l_ref s.2.
Proof.
  revert acc. induction ls as [|s ls IH]; intros acc; simpl; [by left|].
  intros Hin. apply IH in Hin as [Hin|(s' & Hs' & E)].
  - destruct (hit topic m s) eqn:Hh.
    + rewrite deliver_hit_log in Hin by done.
      apply elem_of_cons in Hin as [->|Hin]; [|by left].
      right. exists s. split; [left|done].
    + rewrite deliver_miss in Hin by done. by left.
  - right. exists s'. split; [by right|done].
Qed.
End Emit.

Lemma round_miss topic m ls acc :
  (∀ s, s ∈ ls → hit topic m s = false) →
  fold_left (deliver_to topic m) ls acc = acc.
Proof.
  revert acc. induction ls as [|s ls IH]; intros acc Hm; simpl; [done|].
  rewrite deliver_miss by (apply Hm; left). apply IH.
  intros s' Hs'. apply Hm. by right.
Qed.

Lemma NoDup_map_inj {A B} (f : A → B) (l : list A) (x y : A) :
  NoDup (map f l) → x ∈ l → y ∈ l → f x = f y → x = y.
Proof.
  induction l as [|a l IH]; simpl; intros Hnd Hx Hy E.
  - by apply elem_of_nil in Hx.
  - apply NoDup_cons in Hnd as [Ha Hnd].
    apply elem_of_cons in Hx as [->|Hx]; apply elem_of_cons in Hy as [->|Hy].
    + done.
    + destruct Ha. rewrite E. apply (list_elem_of_fmap_2 f). done.
    + destruct Ha. rewrite <- E. apply (list_elem_of_fmap_2 f). done.
    + by apply IH.
Qed.

Lemma channel_getPassword auth w :
  getPasswordByNotification auth w =
  (open_channel "getPassword" (VObject [("auth", auth_to_js auth)]) ExpectString w,
   await_promise (next_ref w)).
Proof. reflexivity. Qed.

Lemma channel_pairSigner boc w :
  pairSignerByNotification boc w =
  (open_channel "signer" (VString boc) ExpectString w, await_promise (next_ref w)).
Proof. reflexivity. Qed.

Lemma channel_pairLedger path transaction w :
  pairLedgerByNotification path transaction w =
  (open_channel "ledger"
     (VObject [("path", VArray (map VNumber path)); ("transaction", transaction)])
     ExpectObject w,
   await_promise (next_ref w)).
Proof. reflexivity. Qed.

(** What one response does to a subscribed closure. *)
Lemma respond_effect (w : World) (m : Message) (sub : string * Listener) :
  channel_inv w → sub ∈ callbacks w →
  if id_matches m (l_id sub.2)
  then calls (l_ref sub.2) (emit "response" m w) =
         [settle_with (l_expect sub.2) (params m)] ∧
       sub ∉ callbacks (emit "response" m w)
  else calls (l_ref sub.2) (emit "response" m w) = [] ∧
       sub ∈ callbacks (emit "response" m w).
Proof.
  intros Hinv Hin. unfold emit.
  set (acc := log_published "response" m w).
  assert (Hacc : calls (l_ref sub.2) acc = []) by (by apply (inv_pending w)).
  assert (Hhit : hit "response" m sub = id_matches m (l_id sub.2)).
  { unfold hit. by rewrite (inv_topic w Hinv sub Hin). }
  destruct (id_matches m (l_id sub.2)) eqn:Hid.
  - destruct (list_elem_of_split _ _ Hin) as (pre & post & Hsplit).
    pose proof (inv_nodup w Hinv) as Hnd. rewrite Hsplit in Hnd |- *.
    rewrite map_app in Hnd. simpl in Hnd.
    apply NoDup_app in Hnd as (_ & Hpre & Hpost).
    apply NoDup_cons in Hpost as [Hpost _].
    rewrite fold_left_app. simpl.
    set (mid := fold_left (deliver_to "response" m) pre acc).
    assert (Hmid : calls (l_ref sub.2) mid = []).
    { unfold mid. rewrite round_calls_other; [done|].
      intros s Hs _ E. apply (Hpre (l_ref s.2)).
      - by apply (list_elem_of_fmap_2 (fun sub : string * Listener => l_ref sub.2)).
      - rewrite E. left. }
    split.
    + rewrite round_calls_other.
      * by rewrite deliver_calls_hit, Hmid.
      * intros s Hs _ E. apply Hpost. rewrite <- E.
        by apply (list_elem_of_fmap_2 (fun sub : string * Listener => l_ref sub.2)).
    + intros Hlater. apply round_subset in Hlater.
      destruct sub as [t l]. pose proof (inv_topic w Hinv _ Hin) as Ht.
      simpl in Ht. subst t.
      by apply (deliver_hit_gone "response" m mid ("response", l) l) in Hlater.
  - assert (Hothers : ∀ s, s ∈ callbacks w →
              hit "response" m s = true → l_ref s.2 ≠ l_ref sub.2).
    { intros s Hs Hh E.
      assert (s = sub) as ->
        by (eapply (NoDup_map_inj (fun sub : string * Listener => l_ref sub.2));
            [apply (inv_nodup w Hinv)|done..]).
      congruence. }
    split.
    + by rewrite round_calls_other.
    + by apply round_keeps.
Qed.

Lemma channel_inv_empty : channel_inv empty_world.
Proof.
  split; simpl; try (intros ? Hin; by apply elem_of_nil in Hin). constructor.
Qed.

Lemma NoDup_map_filter {A B} (f : A → B) (g : A → bool) (l : list A) :
  NoDup (map f l) → NoDup (map f (List.filter g l)).
Proof.
  induction l as [|a l IH]; simpl; intros Hnd; [constructor|].
  apply NoDup_cons in Hnd as [Ha Hnd].
  destruct (g a); [|by apply IH].
  simpl. apply NoDup_cons. split; [|by apply IH].
  intros Hin. apply Ha.
  apply list_elem_of_fmap in Hin as (y & -> & Hy).
  apply (list_elem_of_fmap_2 f).
  apply list_elem_of_In, List.filter_In in Hy as [Hy _].
  by apply list_elem_of_In.
Qed.

Lemma round_nodup topic m ls acc :
  NoDup (map (fun sub : string * Listener => l_ref sub.2) (callbacks acc)) →
  NoDup (map (fun sub : string * Listener => l_ref sub.2)
             (callbacks (fold_left (deliver_to topic m) ls acc))).
Proof.
  revert acc. induction ls as [|s ls IH]; intros acc Hnd; simpl; [done|].
  apply IH. destruct (hit topic m s) eqn:Hh.
  - rewrite deliver_hit_callbacks by done. by apply NoDup_map_filter.
  - by rewrite deliver_miss.
Qed.

Lemma channel_inv_respond (w : World) (m : Message) :
  channel_inv w → channel_inv (emit "response" m w).
Proof.
  intros Hinv.
  assert (Hsub : ∀ sub, sub ∈ callbacks (emit "response" m w) → sub ∈ callbacks w)
    by (intros sub; apply round_subset).
  assert (Hnext : next_ref (emit "response" m w) = next_ref w)
    by (unfold emit; by rewrite round_next_ref).
  split.
  - intros sub Hin. by apply (inv_topic w), Hsub.
  - intros sub Hin. rewrite Hnext. by apply (inv_bound w), Hsub.
  - intros sub Hin. pose proof (respond_effect w m sub Hinv (Hsub _ Hin)) as He.
    destruct (id_matches m (l_id sub.2)); destruct He as [He1 He2]; [by destruct He2|done].
  - apply round_nodup. apply (inv_nodup w Hinv).
  - intros entry Hin. rewrite Hnext.
    apply round_log_refs in Hin as [Hin|(s & Hs & ->)].
    + by apply (inv_log w).
    + by apply (inv_bound w).
Qed.

Lemma open_channel_world (w : World) topic payload expect :
  channel_inv w → topic ≠ "response" →
  open_channel topic payload expect w =
  on "response" {| l_ref := next_ref w; l_id := clock w; l_expect := expect |}
     (log_published topic
        {| method := topic; msg_id := Some (clock w); params := payload |}
        (bump_ref w)).
Proof.
  intros Hinv Ht. unfold open_channel, emit. f_equal.
  apply round_miss. intros s Hs. unfold hit.
  rewrite (inv_topic w Hinv s Hs).
  apply andb_false_iff. left. apply String.eqb_neq. congruence.
Qed.

Lemma channel_inv_open (w : World) topic payload expect :
  channel_inv w → topic ≠ "response" →
  channel_inv (open_channel topic payload expect w).
Proof.
  intros Hinv Ht. rewrite open_channel_world by done.
  split; simpl.
  - intros sub Hin. apply elem_of_app in Hin as [Hin|Hin].
    + by apply (inv_topic w).
    + apply list_elem_of_singleton in Hin. by subst.
  - intros sub Hin. apply elem_of_app in Hin as [Hin|Hin].
    + apply (inv_bound w Hinv) in Hin. lia.
    + apply list_elem_of_singleton in Hin. subst. simpl. lia.
  - intros sub Hin. apply elem_of_app in Hin as [Hin|Hin].
    + by apply (inv_pending w Hinv) in Hin.
    + apply list_elem_of_singleton in Hin. subst. simpl.
      unfold calls. simpl.
      destruct (List.filter _ _) as [|entry rest] eqn:Hf; [done|].
      assert (Hentry : List.In entry (List.filter
                (fun entry : nat * Outcome JsValue => entry.1 =? next_ref w)%nat
                (settle_log w))) by (rewrite Hf; by left).
      apply List.filter_In in Hentry as [Hentry Heq].
      apply Nat.eqb_eq in Heq.
      apply list_elem_of_In, (inv_log w Hinv) in Hentry. lia.
  - rewrite map_app. simpl. apply NoDup_app. split; [apply (inv_nodup w Hinv)|].
    split; [|apply NoDup_singleton].
    intros p Hp Hp'. apply list_elem_of_singleton in Hp'. subst p.
    apply list_elem_of_fmap in Hp as (sub & E & Hin).
    apply (inv_bound w Hinv) in Hin. lia.
  - intros entry Hin. apply (inv_log w Hinv) in Hin. lia.
Qed.

Lemma channel_inv_act (w : World) (a : Action) :
  channel_inv w → channel_inv (act w a).
Proof.
  intros Hinv. destruct a; simpl.
  - by apply channel_inv_open.
  - by apply channel_inv_open.
  - by apply channel_inv_open.
  - by apply channel_inv_respond.
  - by destruct Hinv.
Qed.

Lemma channel_inv_history (acts : list Action) (w : World) :
  channel_inv w → channel_inv (history acts w).
Proof.
  revert w. induction acts as [|a acts IH]; intros w Hinv; simpl; [done|].
  by apply IH, channel_inv_act.
Qed.

(** A promise that no subscribed closure owns is never settled again. *)
Lemma detached_emit (p : nat) (w : World) topic m :
  detached p w →
  calls p (emit topic m w) = calls p w ∧ detached p (emit topic m w).
Proof.
  intros [Hlt Hfree]. unfold emit. split.
  - rewrite round_calls_other; [done|]. intros s Hs _. by apply Hfree.
  - split.
    + by rewrite round_next_ref.
    + intros sub Hin. apply round_subset in Hin. by apply Hfree.
Qed.

Lemma detached_open (p : nat) (w : World) topic payload expect :
  detached p w →
  calls p (open_channel topic payload expect w) = calls p w ∧
  detached p (open_channel topic payload expect w).
Proof.
  intros [Hlt Hfree]. unfold open_channel.
  set (msg := {| method := topic; msg_id := Some (clock w); params := payload |}).
  destruct (detached_emit p (bump_ref w) topic msg) as [Hc [Hlt' Hfree']].
  { split; simpl; [lia|done]. }
  split; [done|]. split; simpl.
  - exact Hlt'.
  - intros sub Hin. apply elem_of_app in Hin as [Hin|Hin]; [by apply Hfree'|].
    apply list_elem_of_singleton in Hin. subst. simpl. lia.
Qed.

Lemma detached_act (p : nat) (w : World) (a : Action) :
  detached p w → calls p (act w a) = calls p w ∧ detached p (act w a).
Proof.
  intros Hd. destruct a; simpl.
  - by apply detached_open.
  - by apply detached_open.
  - by apply detached_open.
  - by apply detached_emit.
  - done.
Qed.

Lemma detached_history (p : nat) (acts : list Action) (w : World) :
  detached p w → calls p (history acts w) = calls p w.
Proof.
  revert w. induction acts as [|a acts IH]; intros w Hd; simpl; [done|].
  destruct (detached_act p w a Hd) as [Hc Hd'].
  by rewrite IH, Hc.
Qed.

(** C1: in any world the channel can reach, take two outstanding requests
    with distinct ids and a response on ['response'] that carries the id of
    the first.  The response calls [resolve] or [reject] of the first waiter
    exactly once (which of the two is decided by [params]) and unsubscribes
    its closure; the second waiter sees no call and stays subscribed; and
    whatever happens later on the channel (further responses, with any id,
    and further requests) makes no second call on the first waiter. *)
Theorem response_settles_only_its_waiter
    (acts later : list Action) (l1 l2 : Listener) (m : Message) :
  outstanding (history acts empty_world) l1 →
  outstanding (history acts empty_world) l2 →
  l_id l1 ≠ l_id l2 →
  msg_id m = Some (l_id l1) →
  let w' := act (history acts empty_world) (Respond m) in
  calls (l_ref l1) w' = [settle_with (l_expect l1) (params m)] ∧
  ¬ outstanding w' l1 ∧
  calls (l_ref l2) w' = [] ∧
  outstanding w' l2 ∧
  promise_state (l_ref l2) w' = None ∧
  calls (l_ref l1) (history later w') = [settle_with (l_expect l1) (params m)] ∧
  promise_state (l_ref l1) (history later w') =
    Some (settle_with (l_expect l1) (params m)).
Proof.
  intros Ho1 Ho2 Hne Hm. simpl.
  set (w := history acts empty_world) in *.
  assert (Hinv : channel_inv w) by apply channel_inv_history, channel_inv_empty.
  pose proof (respond_effect w m ("response", l1) Hinv Ho1) as H1.
  pose proof (respond_effect w m ("response", l2) Hinv Ho2) as H2.
  simpl in H1, H2. unfold id_matches in H1, H2. rewrite Hm in H1, H2.
  rewrite Z.eqb_refl in H1.
  destruct (Z.eqb_spec (l_id l1) (l_id l2)) as [E|_]; [done|].
  destruct H1 as [Hc1 Hgone], H2 as [Hc2 Hstay].
  assert (Hlater : calls (l_ref l1) (history later (emit "response" m w)) =
                   [settle_with (l_expect l1) (params m)]).
  { rewrite detached_history; [done|]. split.
    - unfold emit. rewrite round_next_ref. simpl.
      apply (inv_bound w Hinv ("response", l1) Ho1).
    - intros sub Hin E. apply Hgone.
      assert (sub = ("response", l1)) as <-; [|done].
      eapply (NoDup_map_inj (fun sub : string * Listener => l_ref sub.2));
        [apply (inv_nodup w Hinv)| |done|done].
      unfold emit in Hin. by apply round_subset in Hin. }
  repeat split; try done.
  - unfold promise_state. by rewrite Hc2.
  - unfold promise_state. by rewrite Hlater.
Qed.

(** A password prompt and a ledger request are outstanding; the password is
    answered, and the same answer is then published a second time. *)
Lemma response_settles_only_its_waiter_witness :
  calls 0 (act (history two_requests empty_world) (Respond password_response)) =
    [Fulfilled (VString "secret")] ∧
  calls 1 (act (history two_requests empty_world) (Respond password_response)) = [] ∧
  calls 0 (history [Respond password_response]
             (act (history two_requests empty_world) (Respond password_response))) =
    [Fulfilled (VString "secret")].
Proof.
  assert (H1 : outstanding (history two_requests empty_world) password_waiter).
  { vm_compute. apply list_elem_of_In. simpl. auto. }
  assert (H2 : outstanding (history two_requests empty_world) ledger_waiter).
  { vm_compute. apply list_elem_of_In. simpl. auto. }
  assert (H3 : l_id password_waiter ≠ l_id ledger_waiter) by (vm_compute; discriminate).
  assert (H4 : msg_id password_response = Some (l_id password_waiter)) by reflexivity.
  destruct (response_settles_only_its_waiter two_requests [Respond password_response]
              password_waiter ledger_waiter password_response H1 H2 H3 H4)
    as (Ha & _ & Hb & _ & _ & Hc & _).
  split; [exact Ha|]. split; [exact Hb|exact Hc].
Defined.

(** ** The event loop around a pending call *)

Lemma emit_frame topic m w :
  clock (emit topic m w) = clock w ∧
  storage (emit topic m w) = storage w ∧
  location (emit topic m w) = location w ∧
  published (emit topic m w) = (topic, m) :: published w.
Proof.
  unfold emit.
  assert (Hgen : ∀ ls acc,
    clock (fold_left (deliver_to topic m) ls acc) = clock acc ∧
    storage (fold_left (deliver_to topic m) ls acc) = storage acc ∧
    location (fold_left (deliver_to topic m) ls acc) = location acc ∧
    published (fold_left (deliver_to topic m) ls acc) = published acc).
  { induction ls as [|s ls IH]; intros acc; simpl; [done|].
    destruct (IH (deliver_to topic m acc s)) as (-> & -> & -> & ->).
    unfold deliver_to, onCallback.
    destruct (String.eqb _ _); [|done]. destruct (id_matches _ _); [|done].
    by destruct (accepts _ _). }
  by destruct (Hgen (callbacks w) (log_published topic m w)) as (-> & -> & -> & ->).
Qed.

Lemma run_cons {A} (ev : Event) (evs : list Event) (st : World * Task A) :
  run (ev :: evs) st = run evs (step st ev).
Proof. reflexivity. Qed.

Lemma run_settled {A} (evs : list Event) (w : World) (o : Outcome A) :
  (run evs (w, Settled o)).2 = Settled o.
Proof.
  revert w. induction evs as [|ev evs IH]; intros w; [done|].
  rewrite run_cons. destruct ev; simpl; apply IH.
Qed.

Lemma step_await_response {A} (w : World) (m : Message) (l : Listener)
    (k : Outcome JsValue → World → World * Task A) :
  channel_inv w → outstanding w l →
  step (w, AwaitPromise (l_ref l) k) (EvResponse m) =
  if id_matches m (l_id l)
  then k (settle_with (l_expect l) (params m)) (emit "response" m w)
  else (emit "response" m w, AwaitPromise (l_ref l) k).
Proof.
  intros Hinv Ho. unfold step, resume, promise_state. simpl.
  pose proof (respond_effect w m ("response", l) Hinv Ho) as He. simpl in He.
  destruct (id_matches m (l_id l)); destruct He as [-> _]; done.
Qed.

Lemma channel_inv_clock (w : World) (t : Z) : channel_inv w → channel_inv (set_clock t w).
Proof. by intros []. Qed.

Lemma run_await_none {A} (evs : list Event) (w : World) (l : Listener)
    (k : Outcome JsValue → World → World * Task A) :
  channel_inv w → outstanding w l →
  first_response (l_id l) evs = None →
  (run evs (w, AwaitPromise (l_ref l) k)).2 = AwaitPromise (l_ref l) k.
Proof.
  revert w. induction evs as [|ev evs IH]; intros w Hinv Ho Hfirst; [done|].
  rewrite run_cons. destruct ev as [m'|t| |]; simpl in Hfirst.
  - rewrite step_await_response by done.
    pose proof (respond_effect w m' ("response", l) Hinv Ho) as He. simpl in He.
    destruct (id_matches m' (l_id l)); [done|].
    destruct He as [_ He]. apply IH; [by apply channel_inv_respond|done..].
  - apply IH; [by apply channel_inv_clock|done..].
  - by apply IH.
  - by apply IH.
Qed.

Lemma run_await_first {A} (evs : list Event) (w : World) (l : Listener)
    (k : Outcome JsValue → World → World * Task A) (m : Message) (o : Outcome A) :
  channel_inv w → outstanding w l →
  first_response (l_id l) evs = Some m →
  (∀ w', k (settle_with (l_expect l) (params m)) w' = (w', Settled o)) →
  (run evs (w, AwaitPromise (l_ref l) k)).2 = Settled o.
Proof.
  intros Hinv Ho Hfirst Hk. revert w Hinv Ho Hfirst.
  induction evs as [|ev evs IH]; intros w Hinv Ho Hfirst; [done|].
  rewrite run_cons. destruct ev as [m'|t| |]; simpl in Hfirst.
  - rewrite step_await_response by done.
    pose proof (respond_effect w m' ("response", l) Hinv Ho) as He. simpl in He.
    destruct (id_matches m' (l_id l)).
    + injection Hfirst as ->. rewrite Hk. apply run_settled.
    + destruct He as [_ He]. apply IH; [by apply channel_inv_respond|done..].
  - apply IH; [by apply channel_inv_clock|done..].
  - by apply IH.
  - by apply IH.
Qed.

Lemma channel_inv_fresh (s : Storage) (t : Z) : channel_inv (fresh_world s t).
Proof.
  split; simpl; try (intros ? Hin; by apply elem_of_nil in Hin). constructor.
Qed.

Lemma open_channel_frame (w : World) topic payload expect :
  storage (open_channel topic payload expect w) = storage w ∧
  location (open_channel topic payload expect w) = location w.
Proof.
  unfold open_channel. simpl.
  by destruct (emit_frame topic
                 {| method := topic; msg_id := Some (clock w); params := payload |}
                 (bump_ref w)) as (_ & -> & -> & _).
Qed.

Lemma history_frame (acts : list Action) (w : World) :
  storage (history acts w) = storage w ∧ location (history acts w) = location w.
Proof.
  revert w. induction acts as [|a acts IH]; intros w; simpl; [done|].
  destruct (IH (act w a)) as [-> ->].
  destruct a as [auth|boc|path transaction|m|t]; cbn [act].
  - rewrite channel_getPassword. apply open_channel_frame.
  - rewrite channel_pairSigner. apply open_channel_frame.
  - rewrite channel_pairLedger. apply open_channel_frame.
  - by destruct (emit_frame "response" m w) as (_ & -> & -> & _).
  - done.
Qed.

(** A request opened in a reachable world is outstanding with a fresh
    closure, and has published one message. *)
Lemma open_channel_outstanding (w : World) topic payload expect :
  channel_inv w → topic ≠ "response" →
  channel_inv (open_channel topic payload expect w) ∧
  outstanding (open_channel topic payload expect w)
    {| l_ref := next_ref w; l_id := clock w; l_expect := expect |} ∧
  published (open_channel topic payload expect w) =
    (topic, {| method := topic; msg_id := Some (clock w); params := payload |})
      :: published w ∧
  storage (open_channel topic payload expect w) = storage w ∧
  clock (open_channel topic payload expect w) = clock w.
Proof.
  intros Hinv Ht. split; [by apply channel_inv_open|].
  rewrite open_channel_world by done. unfold outstanding. simpl.
  split; [|done]. apply elem_of_app. right. left.
Qed.

(** ** Secret provider and signer factory *)

Section Signers.
Context `{Platform}.

(** C7: for a wallet whose auth state is [ledger], [getSigner] fulfils with
    a signer tagged [ledger] whose callback is [pairLedgerByNotification].
    Invoked in a world the channel can reach, with a path and a
    transaction, it publishes one message, on ['ledger'], that carries the
    time stamp as id and the path and transaction as params.  Whatever
    events follow, the call stays pending until the first response with
    that id; it is fulfilled with its [params] when they are a non-null
    object, and rejected with them otherwise. *)
Theorem ledger_signer
    (w0 : World) (publicKey : string)
    (acts : list Action) (s : Storage) (t : Z)
    (path : list Z) (transaction : JsValue) (evs : list Event) :
  getWalletAuthState (storage w0) publicKey = Fulfilled AuthLedger →
  call_alone (getSigner publicKey) w0 =
    (w0, Some (Fulfilled (LedgerSigner (fun path transaction =>
                            pairLedgerByNotification path transaction)))) ∧
  signer_type (LedgerSigner (fun path transaction =>
                 pairLedgerByNotification path transaction)) = "ledger" ∧
  let w := history acts (fresh_world s t) in
  let st := pairLedgerByNotification path transaction w in
  published st.1 =
    ("ledger",
     {| method := "ledger"; msg_id := Some (clock w);
        params := VObject [("path", VArray (map VNumber path));
                           ("transaction", transaction)] |}) :: published w ∧
  (run evs st).2 =
    match first_response (clock w) evs with
    | Some m =>
        Settled (if truthy (params m) && String.eqb (typeof (params m)) "object"
                 then Fulfilled (params m) else Rejected (params m))
    | None => st.2
    end.
Proof.
  intros Hauth. split; [|split; [done|]].
  { unfold call_alone, getSigner. simpl. by rewrite Hauth. }
  simpl. set (w := history acts (fresh_world s t)).
  assert (Hinv : channel_inv w) by apply channel_inv_history, channel_inv_fresh.
  rewrite channel_pairLedger. simpl.
  destruct (open_channel_outstanding w "ledger"
              (VObject [("path", VArray (map VNumber path));
                        ("transaction", transaction)]) ExpectObject Hinv)
    as (Hinv' & Hout & Hpub & _); [done|].
  split; [done|].
  set (l := {| l_ref := next_ref w; l_id := clock w; l_expect := ExpectObject |}) in *.
  change (next_ref w) with (l_ref l). change (clock w) with (l_id l).
  unfold await_promise.
  destruct (first_response (l_id l) evs) as [m|] eqn:Hfirst.
  - by apply (run_await_first evs _ l _ m).
  - by apply run_await_none.
Qed.
End Signers.

(** A ledger wallet: the signer is invoked with path [44; 607] while a
    password prompt is outstanding.  A response with another id leaves it
    pending; a string under its id rejects it. *)
Lemma ledger_signer_witness :
  (run [EvResponse {| method := "response"; msg_id := Some 0; params := VString "pw" |};
        EvResponse {| method := "response"; msg_id := Some 7; params := VString "refused" |}]
       (pairLedgerByNotification [44; 607] (VObject [])
          (history [CallGetPassword AuthPassword; SetClock 7]
                   (fresh_world empty_storage 0)))).2 =
  Settled (Rejected (VString "refused")).
Proof.
  refine (proj2 (proj2 (proj2
    (@ledger_signer (scenario_platform AuthLedger) empty_world "pk"
       [CallGetPassword AuthPassword; SetClock 7] empty_storage 0 [44; 607] (VObject [])
       [EvResponse {| method := "response"; msg_id := Some 0; params := VString "pw" |};
        EvResponse {| method := "response"; msg_id := Some 7;
                      params := VString "refused" |}] _)))).
  reflexivity.
Defined.

Lemma run_settled_frame {A} (evs : list Event) (w : World) (o : Outcome A) :
  storage (run evs (w, Settled o)).1 = storage w ∧
  location (run evs (w, Settled o)).1 = location w.
Proof.
  revert w. induction evs as [|ev evs IH]; intros w; [done|].
  rewrite run_cons. destruct ev as [m|t| |]; simpl; unfold resume; simpl.
  - destruct (IH (emit "response" m w)) as [-> ->].
    by destruct (emit_frame "response" m w) as (_ & -> & -> & _).
  - by destruct (IH (set_clock t w)) as [-> ->].
  - apply IH.
  - apply IH.
Qed.

(** A call suspended on [delay]: responses do not wake it; the timer does,
    once the clock has reached the deadline. *)
Lemma run_delay {A} (evs : list Event) (w : World) (d : Z)
    (k : World → World * Task A) (o : Outcome A) :
  (∀ w', k w' = (w', Settled o)) →
  (run evs (w, AwaitDelay d k)).2 =
    (if timer_fired d (clock w) evs then Settled o else AwaitDelay d k) ∧
  storage (run evs (w, AwaitDelay d k)).1 = storage w ∧
  location (run evs (w, AwaitDelay d k)).1 = location w.
Proof.
  intros Hk. revert w. induction evs as [|ev evs IH]; intros w; [done|].
  rewrite run_cons. destruct ev as [m|t| |]; simpl.
  - unfold resume. simpl.
    destruct (IH (emit "response" m w)) as (-> & -> & ->).
    by destruct (emit_frame "response" m w) as (-> & -> & -> & _).
  - apply (IH (set_clock t w)).
  - apply IH.
  - destruct (d <=? clock w) eqn:Hd; simpl.
    + rewrite Hk. unfold resume. simpl.
      split; [apply run_settled|apply run_settled_frame].
    + apply IH.
Qed.

Lemma rejects_only_not_fulfilled {A} (t : Task A) (a : A) :
  rejects_only t → t ≠ Settled (Fulfilled a).
Proof. intros Hr E. subst. inversion Hr. Qed.

Lemma rejects_only_resume {A} (st : World * Task A) :
  rejects_only st.2 → rejects_only (resume st).2.
Proof.
  intros Hr. unfold resume. destruct st as [w t]. simpl in *.
  destruct t as [o|k|p k|d k]; try done.
  destruct (promise_state p w) as [o|]; [|done].
  inversion Hr; subst. auto.
Qed.

Lemma rejects_only_step {A} (st : World * Task A) (ev : Event) :
  rejects_only st.2 → rejects_only (step st ev).2.
Proof.
  intros Hr. destruct st as [w t]. destruct ev as [m|c| |]; simpl in *.
  - by apply rejects_only_resume.
  - done.
  - destruct t as [o|k|p k|d k]; try done.
    apply rejects_only_resume. inversion Hr; subst. auto.
  - destruct t as [o|k|p k|d k]; try done.
    destruct (d <=? clock w); [|done].
    apply rejects_only_resume. inversion Hr; subst. auto.
Qed.

Lemma rejects_only_run {A} (evs : list Event) (st : World * Task A) :
  rejects_only st.2 → rejects_only (run evs st).2.
Proof.
  revert st. induction evs as [|ev evs IH]; intros st Hr; [done|].
  rewrite run_cons. by apply IH, rejects_only_step.
Qed.

Section SecretProvider.
Context `{Platform}.

(** C6: for a wallet whose auth state is [signer] or [signer-deeplink],
    [getMnemonic] throws ['Unexpected auth method'] as soon as the auth
    state has been read, and at no point of any run does it return a
    secret. *)
Theorem signer_wallets_have_no_secret
    (w : World) (publicKey : string) (auth : AuthState) (evs : list Event) :
  getWalletAuthState (storage w) publicKey = Fulfilled auth →
  auth = AuthSigner ∨ auth = AuthSignerDeepLink →
  call_alone (getMnemonic publicKey) w =
    (w, Some (Rejected (VError "Unexpected auth method"))) ∧
  (run (EvIO :: evs) (getMnemonic publicKey w)).2 =
    Settled (Rejected (VError "Unexpected auth method")) ∧
  (∀ secret, (run evs (getMnemonic publicKey w)).2 ≠ Settled (Fulfilled secret)).
Proof.
  intros Hauth Hkind.
  assert (Hthrow : ∀ w', storage w' = storage w →
            step (getMnemonic publicKey w) EvIO =
            (w, Settled (Rejected (VError "Unexpected auth method"))) ∧
            step (w', (getMnemonic publicKey w).2) EvIO =
            (w', Settled (Rejected (VError "Unexpected auth method")))).
  { intros w' Hs. unfold getMnemonic, step, resume. simpl.
    rewrite Hs, Hauth. by destruct Hkind as [-> | ->]. }
  split; [|split].
  - unfold call_alone, getMnemonic. simpl. rewrite Hauth.
    by destruct Hkind as [-> | ->].
  - rewrite run_cons. destruct (Hthrow w eq_refl) as [-> _]. apply run_settled.
  - intros secret.
    assert (Hgen : ∀ st : World * Task (list string),
      storage st.1 = storage w →
      st.2 = (getMnemonic publicKey w).2 ∨
      st.2 = Settled (Rejected (VError "Unexpected auth method")) →
      (run evs st).2 ≠ Settled (Fulfilled secret)).
    { induction evs as [|ev evs IH]; intros [w' t'] Hs Ht; cbn [fst snd] in Hs, Ht.
      - simpl. by destruct Ht as [-> | ->].
      - rewrite run_cons. destruct Ht as [-> | ->].
        + destruct ev as [m|c| |].
          * apply IH; simpl; [|by left].
            by destruct (emit_frame "response" m w') as (_ & -> & _).
          * apply IH; simpl; [done|by left].
          * destruct (Hthrow w' Hs) as [_ ->]. apply IH; simpl; [done|by right].
          * apply IH; simpl; [done|by left].
        + rewrite <- run_cons, run_settled. done. }
    apply Hgen; [done|by left].
Qed.

(** C5: for a wallet whose auth state is [password], [getMnemonic] opens a
    password prompt once the auth state has been read.  When the first
    response that carries the id of the prompt has [params] that are not a
    string (an [Error], say), the prompt rejects with those [params] and
    [getMnemonic] throws them on: it ends rejected with the same value and
    returns no secret. *)
Theorem password_rejection_propagates
    (acts : list Action) (s : Storage) (t : Z) (publicKey : string)
    (evs : list Event) (m : Message) :
  let w := history acts (fresh_world s t) in
  getWalletAuthState s publicKey = Fulfilled AuthPassword →
  first_response (clock w) evs = Some m →
  String.eqb (typeof (params m)) "string" = false →
  published (step (getMnemonic publicKey w) EvIO).1 =
    ("getPassword",
     {| method := "getPassword"; msg_id := Some (clock w);
        params := VObject [("auth", auth_to_js AuthPassword)] |}) :: published w ∧
  (run (EvIO :: evs) (getMnemonic publicKey w)).2 = Settled (Rejected (params m)).
Proof.
  cbv zeta. set (w := history acts (fresh_world s t)).
  intros Hauth Hfirst Hparams.
  assert (Hinv : channel_inv w) by apply channel_inv_history, channel_inv_fresh.
  assert (Hs : storage w = s) by (unfold w; by rewrite (proj1 (history_frame _ _))).
  destruct (open_channel_outstanding w "getPassword"
              (VObject [("auth", auth_to_js AuthPassword)]) ExpectString Hinv)
    as (Hinv' & Hout & Hpub & _); [done|].
  set (l := {| l_ref := next_ref w; l_id := clock w; l_expect := ExpectString |}) in *.
  set (w1 := open_channel "getPassword"
               (VObject [("auth", auth_to_js AuthPassword)]) ExpectString w) in *.
  assert (Hstep : ∃ k,
    step (getMnemonic publicKey w) EvIO = (w1, AwaitPromise (l_ref l) k) ∧
    ∀ e w', k (Rejected e) w' = (w', Settled (Rejected e))).
  { eexists. split.
    - unfold getMnemonic, step. cbn [bind await_io bind_task fst snd].
      rewrite Hs, Hauth. cbn [bind_task]. unfold bind at 1.
      rewrite channel_getPassword. fold w1. unfold await_promise.
      cbn [bind_task]. unfold resume, promise_state. cbn [fst snd].
      change (next_ref w) with (l_ref ("response", l).2).
      rewrite (inv_pending w1 Hinv' ("response", l) Hout). cbn [last].
      reflexivity.
    - done. }
  destruct Hstep as (k & Hstep & Hk).
  split.
  - by rewrite Hstep.
  - rewrite run_cons, Hstep.
    apply (run_await_first evs w1 l k m); [done..|].
    intros w'. unfold settle_with. simpl. rewrite Hparams. apply Hk.
Qed.
End SecretProvider.

(** A wallet paired with the signer application: no secret. *)
Lemma signer_wallets_have_no_secret_witness :
  call_alone (@getMnemonic (scenario_platform AuthSigner) "pk") empty_world =
  (empty_world, Some (Rejected (VError "Unexpected auth method"))).
Proof.
  refine (proj1 (@signer_wallets_have_no_secret (scenario_platform AuthSigner)
                   empty_world "pk" AuthSigner [] _ _)).
  - reflexivity.
  - left. reflexivity.
Defined.

(** The prompt opened at time 10 is answered with an [Error]. *)
Lemma password_rejection_propagates_witness :
  (run [EvIO;
        EvResponse {| method := "response"; msg_id := Some 10;
                      params := VError "cancelled" |}]
       (@getMnemonic (scenario_platform AuthPassword) "pk"
          (fresh_world empty_storage 10))).2 =
  Settled (Rejected (VError "cancelled")).
Proof.
  refine (proj2 (@password_rejection_propagates (scenario_platform AuthPassword)
                   [] empty_storage 10 "pk"
                   [EvResponse {| method := "response"; msg_id := Some 10;
                                  params := VError "cancelled" |}]
                   {| method := "response"; msg_id := Some 10;
                      params := VError "cancelled" |} _ _ _)).
  - reflexivity.
  - reflexivity.
  - reflexivity.
Defined.

(** A call suspended on a platform call stays as it is until that call
    completes; the events in between leave the storage and the location
    alone. *)
Lemma run_awaiting_io {A} (pre : list Event) (w : World)
    (k : World → World * Task A) :
  Forall (fun ev => ev ≠ EvIO) pre →
  run pre (w, AwaitIO k) = (world_after pre w, AwaitIO k).
Proof.
  revert w. induction pre as [|ev pre IH]; intros w Hpre; [done|].
  apply Forall_cons in Hpre as [Hev Hpre].
  rewrite run_cons. destruct ev as [m|t| |]; simpl; unfold resume; simpl.
  - by apply IH.
  - by apply IH.
  - done.
  - by apply IH.
Qed.

Lemma world_after_frame (evs : list Event) (w : World) :
  storage (world_after evs w) = storage w ∧
  location (world_after evs w) = location w.
Proof.
  revert w. induction evs as [|ev evs IH]; intros w; [done|].
  destruct ev as [m|t| |]; simpl.
  - destruct (IH (emit "response" m w)) as [-> ->].
    by destruct (emit_frame "response" m w) as (_ & -> & -> & _).
  - by destruct (IH (set_clock t w)) as [-> ->].
  - apply IH.
  - apply IH.
Qed.

Section DeepLink.
Context `{Platform}.

(** C4: for a wallet whose auth state is [signer-deeplink], [getSigner]
    fulfils with a signer tagged [cell].  Its callback never ends
    fulfilled, whatever events arrive.  When the pending transaction is
    stored and the deep link built, the callback is pending and has not
    navigated while the storage call is under way; when that call completes
    it has stored the transaction and set [window.location] to the link;
    from then on it stays pending, whatever responses are published, until
    the timer set for 2000 ms after that moment is due, and then it throws
    ['Navigate to deeplink']. *)
Theorem deeplink_signer_navigates_away
    (w0 : World) (publicKey : string) :
  getWalletAuthState (storage w0) publicKey = Fulfilled AuthSignerDeepLink →
  ∃ callback,
    call_alone (getSigner publicKey) w0 =
      (w0, Some (Fulfilled (CellSigner callback))) ∧
    signer_type (CellSigner callback) = "cell" ∧
    (∀ w message evs signature,
       (run evs (callback message w)).2 ≠ Settled (Fulfilled signature)) ∧
    (∀ w message pre evs s deeplink,
       Forall (fun ev => ev ≠ EvIO) pre →
       storeTransactionAndCreateDeepLink
         (storage w) publicKey (cell_boc_base64 message) = (s, Fulfilled deeplink) →
       let w1 := world_after pre w in
       let st1 := step (run pre (callback message w)) EvIO in
       run pre (callback message w) = (w1, (callback message w).2) ∧
       storage w1 = storage w ∧
       location w1 = location w ∧
       storage st1.1 = s ∧
       location st1.1 = Some deeplink ∧
       (∃ k, st1.2 = AwaitDelay (clock w1 + 2000) k) ∧
       storage (run evs st1).1 = s ∧
       location (run evs st1).1 = Some deeplink ∧
       (run evs st1).2 =
         if timer_fired (clock w1 + 2000) (clock w1) evs
         then Settled (Rejected (VError "Navigate to deeplink"))
         else st1.2).
Proof.
  intros Hauth. eexists. split; [|split; [done|split]].
  - unfold call_alone, getSigner. simpl. rewrite Hauth. reflexivity.
  - intros w message evs signature.
    apply rejects_only_not_fulfilled, rejects_only_run.
    cbn [bind await_io bind_task fst snd]. constructor. intros w1.
    destruct (storeTransactionAndCreateDeepLink _ _ _) as [s [deeplink|e]].
    + cbn [bind_task bind fst snd delay]. constructor. intros w2.
      cbn [bind_task throw fst snd]. constructor.
    + cbn [bind_task fst snd]. constructor.
  - intros w message pre evs s deeplink Hpre Hstore.
    destruct (world_after_frame pre w) as [Hs Hl].
    cbn [bind await_io bind_task fst snd].
    rewrite run_awaiting_io by done.
    split; [done|]. split; [done|]. split; [done|].
    unfold step. cbn [fst snd]. rewrite Hs, Hstore.
    cbn [bind_task bind fst snd delay]. unfold resume at 1 2 3 4 5 6.
    cbn [fst snd set_location set_storage storage location clock].
    match goal with
    | |- context [run evs (?w2, AwaitDelay ?d ?k)] =>
        destruct (run_delay evs w2 d k (Rejected (VError "Navigate to deeplink")))
          as (Hr & Hs' & Hl'); [done|]
    end.
    cbn [set_location set_storage storage location clock] in Hr, Hs', Hl'.
    split; [done|]. split; [done|]. split; [eauto|]. done.
Qed.
End DeepLink.

(** A deep-link wallet.  A response arrives while the transaction is being
    stored and another after the navigation; neither matters, and the
    timer ends the call with the control signal once the clock shows 2000,
    not before. *)
Lemma deeplink_signer_navigates_away_witness :
  ∃ callback,
    call_alone (@getSigner (scenario_platform AuthSignerDeepLink) "pk") empty_world =
      (empty_world, Some (Fulfilled (CellSigner callback))) ∧
    location (run [EvResponse password_response; EvIO]
                  (callback scenario_cell empty_world)).1 =
      Some "tonsign://v1/?boc=te6cckEBAQEAAgAAAEysuc0=" ∧
    (run [EvResponse password_response; EvIO;
          EvResponse password_response; EvClock 1999; EvTimer]
         (callback scenario_cell empty_world)).2 ≠
      Settled (Rejected (VError "Navigate to deeplink")) ∧
    (run [EvResponse password_response; EvIO;
          EvResponse password_response; EvClock 2000; EvTimer]
         (callback scenario_cell empty_world)).2 =
      Settled (Rejected (VError "Navigate to deeplink")).
Proof.
  destruct (@deeplink_signer_navigates_away (scenario_platform AuthSignerDeepLink)
              empty_world "pk" eq_refl) as (callback & Hget & _ & _ & Hrun).
  exists callback. split; [exact Hget|].
  assert (Hpre : Forall (fun ev => ev ≠ EvIO) [EvResponse password_response])
    by (repeat constructor; discriminate).
  pose proof (fun evs => Hrun empty_world scenario_cell
                [EvResponse password_response] evs
                {| connection_sets := ∅;
                   entries := <["pending_pk" := VString "te6cckEBAQEAAgAAAEysuc0="]> ∅ |}
                "tonsign://v1/?boc=te6cckEBAQEAAgAAAEysuc0=" Hpre eq_refl) as Hevs.
  cbv zeta in Hevs.
  split; [|split].
  - exact (proj1 (proj2 (proj2 (proj2 (proj2 (Hevs [])))))).
  - destruct (Hevs [EvResponse password_response; EvClock 1999; EvTimer])
      as (_ & _ & _ & _ & _ & [k Hk] & _ & _ & Htask).
    change (run [EvResponse password_response; EvIO;
                 EvResponse password_response; EvClock 1999; EvTimer]
                (callback scenario_cell empty_world))
      with (run [EvResponse password_response; EvClock 1999; EvTimer]
                (step (run [EvResponse password_response]
                           (callback scenario_cell empty_world)) EvIO)).
    rewrite Htask, Hk. simpl. discriminate.
  - exact (proj2 (proj2 (proj2 (proj2 (proj2 (proj2 (proj2 (proj2
             (Hevs [EvResponse password_response; EvClock 2000; EvTimer]))))))))).
Defined.

(** ** The disconnect mutation *)

Lemma disconnectFromWallet_start (connection : Target) (wallet : TonWalletStandard)
    (w : World) :
  disconnectFromWallet connection wallet w = (w, dfw_reading connection wallet).
Proof. reflexivity. Qed.

Lemma stored_same_id (w : World) (a b : TonWalletStandard) :
  wallet_id a = wallet_id b → stored w a = stored w b.
Proof. unfold stored, getTonWalletConnections. by intros ->. Qed.

Lemma stored_write (w : World) (wallet other : TonWalletStandard)
    (items : list AccountConnection) :
  stored (set_storage (setAccountConnection (storage w) wallet items) w) other =
  if decide (wallet_id other = wallet_id wallet) then items else stored w other.
Proof.
  case_decide as E.
  - rewrite (stored_same_id _ other wallet E). apply stored_set_same.
  - by apply stored_set_other.
Qed.

Lemma retained_idempotent (connection : Target) (cs : list AccountConnection) :
  retained connection (retained connection cs) = retained connection cs.
Proof.
  destruct connection as [|c]; [done|].
  rewrite !retained_one.
  induction cs as [|x cs IH]; simpl; [done|].
  destruct (session_differs c x) eqn:E; simpl; [|done].
  by rewrite E, IH.
Qed.

Lemma retained_seen (connection : Target) (w0 : World) (wallet : TonWalletStandard)
    (cs : list AccountConnection) :
  seen connection w0 wallet cs →
  retained connection cs = retained connection (stored w0 wallet).
Proof. intros [-> | ->]; [done|apply retained_idempotent]. Qed.

Lemma seen_same_id (connection : Target) (w0 : World) (a b : TonWalletStandard)
    (cs : list AccountConnection) :
  wallet_id a = wallet_id b → seen connection w0 a cs → seen connection w0 b cs.
Proof. unfold seen. intros E. by rewrite (stored_same_id w0 a b E). Qed.

Section Pool.
Variables (connection : Target) (w0 : World) (wallets : list TonWalletStandard).

Lemma start_all_pool (w : World) (l : list TonWalletStandard) :
  start_all (map (disconnectFromWallet connection) l) w =
  (w, map (dfw_reading connection) l).
Proof.
  induction l as [|x l IH]; [done|].
  cbn [map start_all]. by rewrite disconnectFromWallet_start, IH.
Qed.

Lemma pool_inv_start :
  pool_inv connection w0 wallets (w0, map (dfw_reading connection) wallets).
Proof.
  split; simpl.
  - apply Forall2_fmap_r, Forall_Forall2_diag, Forall_forall.
    intros wallet _. by constructor.
  - intros wallet. by left.
  - done.
  - done.
Qed.

Lemma distinct_index (i j : nat) (a b : TonWalletStandard) :
  NoDup (map wallet_id wallets) →
  wallets !! i = Some a → wallets !! j = Some b →
  wallet_id a = wallet_id b → i = j.
Proof.
  intros Hnd Ha Hb E.
  apply (NoDup_lookup (map wallet_id wallets) i j (wallet_id a) Hnd).
  - change (map wallet_id wallets) with (wallet_id <$> wallets).
    by rewrite list_lookup_fmap, Ha.
  - change (map wallet_id wallets) with (wallet_id <$> wallets).
    by rewrite list_lookup_fmap, Hb, E.
Qed.

Lemma pool_inv_advance (st : World * list (Task (list AccountConnection))) (i : nat) :
  pool_inv connection w0 wallets st → pool_inv connection w0 wallets (advance st i).
Proof.
  intros Hinv. destruct st as [w ts]. unfold advance. simpl.
  destruct (ts !! i) as [t|] eqn:Hti; [|done].
  pose proof (pool_tasks _ _ _ _ Hinv) as Htasks. simpl in Htasks.
  destruct (Forall2_lookup_r _ _ _ _ _ Htasks Hti) as (wallet & Hwi & Hok).
  pose proof (lookup_lt_Some _ _ _ Hti) as Hlt.
  apply Forall2_same_length_lookup in Htasks as [Hlen Hall].
  destruct Hok as [Hread|cs Hseen Hwrite|cs Hseen Hstored Hcs]; simpl.
  - (* the read completes *)
    split; simpl.
    + apply Forall2_same_length_lookup. split; [by rewrite length_insert|].
      intros j x y Hx Hy. apply list_lookup_insert_Some in Hy as [(<- & <- & _)|[Hne Hy]].
      * assert (x = wallet) as -> by congruence.
        constructor; [apply (pool_seen _ _ _ _ Hinv)|].
        intros Hd. split; by apply Hread.
      * by apply (Hall j).
    + apply (pool_seen _ _ _ _ Hinv).
    + apply (pool_frame _ _ _ _ Hinv).
    + apply (pool_logs _ _ _ _ Hinv).
  - (* the write completes *)
    assert (Hret : retained connection cs = retained connection (stored w0 wallet))
      by by apply retained_seen.
    split; simpl.
    + apply Forall2_same_length_lookup. split; [by rewrite length_insert|].
      intros j x y Hx Hy. apply list_lookup_insert_Some in Hy as [(<- & <- & _)|[Hne Hy]].
      * assert (x = wallet) as -> by congruence.
        constructor; [done| |intros Hd; by apply Hwrite].
        rewrite stored_write. by rewrite decide_True.
      * pose proof (Hall j x y Hx Hy) as Hold. simpl in Hold.
        assert (Hdist : NoDup (map wallet_id wallets) →
                        wallet_id x ≠ wallet_id wallet).
        { intros Hd E. apply Hne. symmetry. by eapply distinct_index. }
        destruct Hold as [Hread'|cs' Hseen' Hwrite'|cs' Hseen' Hstored' Hcs'].
        -- constructor. intros Hd. rewrite stored_write.
           rewrite decide_False by auto. auto.
        -- constructor; [done|]. intros Hd. rewrite stored_write.
           rewrite decide_False by auto. auto.
        -- constructor; [done| |done]. rewrite stored_write.
           case_decide as E; [|done].
           by rewrite Hret, (stored_same_id w0 x wallet E).
    + intros x. rewrite stored_write. case_decide as E.
      * right. by rewrite Hret, (stored_same_id w0 x wallet E).
      * apply (pool_seen _ _ _ _ Hinv).
    + intros x Hx. rewrite stored_write. rewrite decide_False.
      * by apply (pool_frame _ _ _ _ Hinv).
      * intros E. apply Hx. rewrite E.
        apply (list_elem_of_fmap_2 wallet_id). by eapply list_elem_of_lookup_2.
    + apply (pool_logs _ _ _ _ Hinv).
  - done.
Qed.

Lemma pool_inv_run (schedule : list nat)
    (st : World * list (Task (list AccountConnection))) :
  pool_inv connection w0 wallets st →
  pool_inv connection w0 wallets (run_pool schedule st).
Proof.
  revert st. induction schedule as [|i schedule IH]; intros st Hinv; [done|].
  simpl. by apply IH, pool_inv_advance.
Qed.
End Pool.

Section Schedule.
Variable connection : Target.

Lemma advance_middle {A} (w : World) (pre post : list (Task A))
    (k : World → World * Task A) :
  advance (w, (pre ++ AwaitIO k :: post)%list) (List.length pre) =
  ((k w).1, (pre ++ (k w).2 :: post)%list).
Proof.
  unfold advance. simpl. rewrite list_lookup_middle by done.
  destruct (k w) as [w1 t]. simpl. f_equal.
  replace (List.length pre) with (length pre + 0)%nat at 1 by lia.
  by rewrite insert_app_r.
Qed.

Lemma run_pool_reads (rest : list TonWalletStandard)
    (pre : list (Task (list AccountConnection))) (w : World) :
  run_pool (seq (List.length pre) (List.length rest))
           (w, (pre ++ map (dfw_reading connection) rest)%list) =
  (w, (pre ++ map (fun wallet => dfw_writing connection wallet (stored w wallet)) rest)%list).
Proof.
  revert pre. induction rest as [|x rest IH]; intros pre; [done|].
  cbn [List.length seq map run_pool fold_left].
  unfold dfw_reading at 1. rewrite advance_middle. cbn [fst snd].
  specialize (IH (pre ++ [dfw_writing connection x (stored w x)])%list).
  rewrite length_app, Nat.add_1_r, <- !app_assoc in IH. exact IH.
Qed.

Lemma run_pool_writes (connections_of : TonWalletStandard → list AccountConnection)
    (rest : list TonWalletStandard)
    (pre : list (Task (list AccountConnection))) (w : World) :
  run_pool (seq (List.length pre) (List.length rest))
           (w, (pre ++ map (fun wallet =>
                  dfw_writing connection wallet (connections_of wallet)) rest)%list) =
  (after_writes connection connections_of rest w,
   (pre ++ map (fun wallet =>
                  Settled (Fulfilled
                    (connectionsToDisconnect connection (connections_of wallet))))
               rest)%list).
Proof.
  revert pre w. induction rest as [|x rest IH]; intros pre w; [done|].
  cbn [List.length seq map run_pool fold_left].
  unfold dfw_writing at 1. rewrite advance_middle. cbn [fst snd].
  specialize (IH (pre ++ [Settled (Fulfilled
                    (connectionsToDisconnect connection (connections_of x)))])%list).
  rewrite length_app, Nat.add_1_r in IH.
  setoid_rewrite <- app_assoc in IH. apply IH.
Qed.

Lemma promise_all_fulfilled {A B} (f : A → B) (l : list A) :
  promise_all (map (fun x => Settled (Fulfilled (f x))) l) = Some (Fulfilled (map f l)).
Proof.
  unfold promise_all.
  assert (Hnone : omap rejection (map (fun x => Settled (Fulfilled (f x))) l) = [])
    by (induction l as [|x l IH]; [done|exact IH]).
  rewrite Hnone. simpl.
  assert (Hall : mapM fulfilled_value (map (fun x => Settled (Fulfilled (f x))) l) =
                 Some (map f l)).
  { apply mapM_Some. apply Forall2_fmap. apply Forall_Forall2_diag, Forall_forall.
    by intros x _. }
  by rewrite Hall.
Qed.

(** Every call reads, then every call writes: the pool completes. *)
Lemma pool_completes (wallets : list TonWalletStandard) (w : World) :
  run_pool (reads_then_writes (List.length wallets))
           (start_all (map (disconnectFromWallet connection) wallets) w) =
  (after_writes connection (stored w) wallets w,
   map (fun wallet =>
          Settled (Fulfilled (connectionsToDisconnect connection (stored w wallet))))
       wallets).
Proof.
  rewrite start_all_pool. unfold reads_then_writes, run_pool.
  rewrite fold_left_app.
  pose proof (run_pool_reads wallets [] w) as Hr. unfold run_pool in Hr.
  simpl in Hr. rewrite Hr.
  apply (run_pool_writes (stored w) wallets [] w).
Qed.
End Schedule.

Lemma after_disconnect_storage (ctx : DisconnectContext)
    (removed : list AccountConnection) (w : World) :
  storage (after_disconnect ctx removed w) = storage w.
Proof.
  unfold after_disconnect. by destruct (skipEmit ctx), (has_notifications ctx).
Qed.

Lemma promise_all_values {A} (ts : list (Task A)) (values : list A) :
  promise_all ts = Some (Fulfilled values) →
  Forall2 (fun t v => fulfilled_value t = Some v) ts values.
Proof.
  unfold promise_all. destruct (head _); [discriminate|].
  destruct (mapM fulfilled_value ts) as [vs|] eqn:E; [|discriminate].
  simpl. intros [= <-]. by apply mapM_Some.
Qed.

(** C8: in an extension whose active wallet is a standard wallet (the
    guard of the mutation), the mutation pools one per-wallet disconnect
    for every wallet of every tracked standard account.  It completes when
    every pooled call has read and then written.  Whenever it completes, in
    whatever order the storage calls of the pooled disconnects were served,
    the list it broadcasts and unsubscribes is the concatenation, in the
    order of the wallets, of the removal lists of the pooled calls, each of
    which read the set of its wallet as it was at the start or as a pooled
    disconnect left it; every pooled wallet holds what its per-wallet
    disconnect leaves, and the other wallets hold what they held.  When the
    pooled wallets have distinct ids each removal list is the one the
    per-wallet disconnect run alone returns. *)
Theorem extension_disconnect_fans_out
    (ctx : DisconnectContext) (connection : Target) (w : World)
    (active : TonWalletStandard) :
  targetEnv ctx = "extension" →
  active_wallet ctx = StandardWallet active →
  let wallets := fan_out_wallets ctx in
  let alone := fun wallet => call_alone (disconnectFromWallet connection wallet) w in
  useDisconnectTonConnectApp ctx (reads_then_writes (List.length wallets)) connection w =
    (after_disconnect ctx
       (concat (map (fun wallet => connectionsToDisconnect connection (stored w wallet))
                    wallets))
       (after_writes connection (stored w) wallets w),
     Some (Fulfilled tt)) ∧
  (∀ schedule w',
     useDisconnectTonConnectApp ctx schedule connection w = (w', Some (Fulfilled tt)) →
     ∃ lists w1,
       w' = after_disconnect ctx (concat lists) w1 ∧
       disconnected w1 = disconnected w ∧
       unsubscribed w1 = unsubscribed w ∧
       Forall2 (fun wallet removed =>
                  ∃ cs, seen connection w wallet cs ∧
                        removed = connectionsToDisconnect connection cs)
               wallets lists ∧
       (∀ wallet, wallet ∈ wallets →
                  stored w' wallet = stored (alone wallet).1 wallet) ∧
       (∀ wallet, wallet_id wallet ∉ map wallet_id wallets →
                  stored w' wallet = stored w wallet) ∧
       (NoDup (map wallet_id wallets) →
        Forall2 (fun wallet removed => (alone wallet).2 = Some (Fulfilled removed))
                wallets lists)).
Proof.
  intros Henv Hactive wallets alone.
  assert (Hext : negb (String.eqb (targetEnv ctx) "extension") = false)
    by by rewrite Henv.
  split.
  - unfold useDisconnectTonConnectApp, collectDisconnected. rewrite Hactive, Hext.
    fold wallets. by rewrite pool_completes, promise_all_fulfilled.
  - intros schedule w'. unfold useDisconnectTonConnectApp, collectDisconnected.
    rewrite Hactive, Hext. fold wallets.
    pose proof (pool_inv_run connection w wallets schedule _
                  (pool_inv_start connection w wallets)) as Hinv.
    rewrite <- (start_all_pool connection w wallets) in Hinv.
    destruct (run_pool schedule _) as [w1 pool].
    destruct (promise_all pool) as [[lists|e]|] eqn:Hall; intros [= <-].
    apply promise_all_values in Hall.
    destruct Hinv as [Htasks _ Hframe [Hd Hu]]. simpl in Htasks, Hframe, Hd, Hu.
    assert (Hq : Forall2 (fun wallet removed =>
                   ∃ cs, seen connection w wallet cs ∧
                         removed = connectionsToDisconnect connection cs ∧
                         stored w1 wallet = retained connection (stored w wallet) ∧
                         (NoDup (map wallet_id wallets) → cs = stored w wallet))
                 wallets lists).
    { apply Forall2_same_length_lookup. split.
      - by rewrite (Forall2_length _ _ _ Htasks), (Forall2_length _ _ _ Hall).
      - intros i wallet removed Hw Hr.
        destruct (Forall2_lookup_l _ _ _ _ _ Htasks Hw) as (t & Ht & Hok).
        destruct (Forall2_lookup_l _ _ _ _ _ Hall Ht) as (r & Hr' & Hv).
        assert (r = removed) as -> by congruence.
        destruct Hok as [?|cs ? ?|cs Hseen Hstored Hcs]; simpl in Hv; try discriminate.
        injection Hv as <-. eauto. }
    exists lists, w1. split; [done|]. split; [done|]. split; [done|]. split; [|split; [|split]].
    + eapply Forall2_impl; [exact Hq|]. intros wallet removed (cs & ? & ? & _). eauto.
    + intros wallet Hin. apply list_elem_of_lookup_1 in Hin as [i Hi].
      destruct (Forall2_lookup_l _ _ _ _ _ Hq Hi) as (r & _ & cs & _ & _ & Hstored & _).
      unfold alone. rewrite disconnectFromWallet_alone. cbn [fst].
      rewrite stored_set_same. unfold stored at 1.
      by rewrite after_disconnect_storage.
    + intros wallet Hout. unfold stored at 1.
      rewrite after_disconnect_storage. by apply Hframe.
    + intros Hnd. eapply Forall2_impl; [exact Hq|].
      intros wallet removed (cs & _ & -> & _ & Hcs).
      unfold alone. rewrite disconnectFromWallet_alone. cbn [snd].
      by rewrite (Hcs Hnd).
Qed.

(** An extension tracks [W], with sessions [a] and [b], and [V], with
    session [a]; disconnecting everything broadcasts [[a; b; a]]. *)
Lemma extension_disconnect_fans_out_witness :
  useDisconnectTonConnectApp extension_two_wallets (reads_then_writes 2) All world_W_V =
  (after_disconnect extension_two_wallets [conn_a; conn_b; conn_a]
     (after_writes All (stored world_W_V) [wallet_W; wallet_V] world_W_V),
   Some (Fulfilled tt)).
Proof.
  exact (proj1 (extension_disconnect_fans_out extension_two_wallets All world_W_V
                  wallet_W eq_refl eq_refl)).
Defined.

(** Without the guard the claim fails: in an extension whose active
    contract is not a standard wallet the mutation throws before any
    per-wallet disconnect, and the tracked wallet [W] keeps its session. *)
Lemma extension_guard_counterexample :
  targetEnv extension_other_contract = "extension" ∧
  useDisconnectTonConnectApp extension_other_contract (reads_then_writes 1) All
    (world_with wallet_W [conn_a]) =
  (world_with wallet_W [conn_a],
   Some (Rejected (VError "Only standard ton wallets can be disconnected"))) ∧
  stored (world_with wallet_W [conn_a]) wallet_W = [conn_a] ∧
  stored (call_alone (disconnectFromWallet All wallet_W)
            (world_with wallet_W [conn_a])).1 wallet_W = [] ∧
  ¬ fans_out_in_every_extension.
Proof.
  split; [reflexivity|]. split; [reflexivity|]. split; [by vm_compute|].
  split; [by vm_compute|].
  intros Hclaim.
  destruct (Hclaim extension_other_contract All (world_with wallet_W [conn_a]) eq_refl)
    as (schedule & w' & Hrun & _).
  unfold useDisconnectTonConnectApp in Hrun. simpl in Hrun. discriminate.
Qed.

(** * Further properties *)

(** ** The channel: bookkeeping, shared ids, dropped responses *)

Lemma open_channel_next_ref (w : World) topic payload expect :
  next_ref (open_channel topic payload expect w) = S (next_ref w).
Proof. unfold open_channel, emit. simpl. by rewrite round_next_ref. Qed.

Lemma open_channel_calls (w : World) topic payload expect (p : nat) :
  channel_inv w → topic ≠ "response" →
  calls p (open_channel topic payload expect w) = calls p w.
Proof. intros Hinv Ht. by rewrite open_channel_world. Qed.

Lemma open_channel_callbacks (w : World) topic payload expect :
  channel_inv w → topic ≠ "response" →
  callbacks (open_channel topic payload expect w) =
  (callbacks w ++ [("response",
                    {| l_ref := next_ref w; l_id := clock w; l_expect := expect |})])%list.
Proof. intros Hinv Ht. by rewrite open_channel_world. Qed.

(** The closure that a matching response has called owns nothing any more. *)
Lemma settled_detached (w : World) (m : Message) (sub : string * Listener) :
  channel_inv w → sub ∈ callbacks w → id_matches m (l_id sub.2) = true →
  detached (l_ref sub.2) (emit "response" m w).
Proof.
  intros Hinv Hin Hid.
  pose proof (respond_effect w m sub Hinv Hin) as He. rewrite Hid in He.
  destruct He as [_ Hgone]. split.
  - unfold emit. rewrite round_next_ref. simpl. by apply (inv_bound w).
  - intros sub' Hin' E. apply Hgone.
    assert (sub' = sub) as <-; [|done].
    eapply (NoDup_map_inj (fun sub : string * Listener => l_ref sub.2));
      [apply (inv_nodup w Hinv)| |done|done].
    unfold emit in Hin'. by apply round_subset in Hin'.
Qed.

Lemma accounted_open (w : World) topic payload expect (p : nat) :
  channel_inv w → topic ≠ "response" →
  (∀ q, (q < next_ref w)%nat → accounted w q) →
  (p < next_ref (open_channel topic payload expect w))%nat →
  accounted (open_channel topic payload expect w) p.
Proof.
  intros Hinv Ht Hall Hp. rewrite open_channel_next_ref in Hp.
  destruct (open_channel_outstanding w topic payload expect Hinv Ht)
    as (Hinv' & Hout & _).
  destruct (decide (p = next_ref w)) as [->|Hne].
  - left. eexists. split; [exact Hout|]. split; [done|].
    apply (inv_pending _ Hinv' _ Hout).
  - assert (Hlt : (p < next_ref w)%nat) by lia.
    destruct (Hall p Hlt) as [(l & Ho & Hl & Hc)|[Hd [o Ho]]].
    + left. exists l. split; [|split; [done|]].
      * unfold outstanding. rewrite open_channel_callbacks by done.
        apply elem_of_app. by left.
      * by rewrite open_channel_calls.
    + right. destruct (detached_open p w topic payload expect Hd) as [Hc Hd'].
      split; [done|]. exists o. by rewrite Hc.
Qed.

Lemma accounted_respond (w : World) (m : Message) (p : nat) :
  channel_inv w → accounted w p → accounted (emit "response" m w) p.
Proof.
  intros Hinv [(l & Ho & <- & Hc)|[Hd [o Ho]]].
  - pose proof (respond_effect w m ("response", l) Hinv Ho) as He. simpl in He.
    destruct (id_matches m (l_id l)) eqn:Hid; destruct He as [He1 He2].
    + right. split; [|eauto].
      by apply (settled_detached w m ("response", l)).
    + left. by exists l.
  - right. destruct (detached_emit p w "response" m Hd) as [Hc Hd'].
    split; [done|]. exists o. by rewrite Hc.
Qed.

Lemma accounted_history (acts : list Action) (w : World) :
  channel_inv w →
  (∀ q, (q < next_ref w)%nat → accounted w q) →
  ∀ p, (p < next_ref (history acts w))%nat → accounted (history acts w) p.
Proof.
  revert w. induction acts as [|a acts IH]; intros w Hinv Hall; [done|].
  simpl. apply IH; [by apply channel_inv_act|].
  destruct a as [auth|boc|path transaction|m|t]; cbn [act].
  - rewrite channel_getPassword. intros q. by apply accounted_open.
  - rewrite channel_pairSigner. intros q. by apply accounted_open.
  - rewrite channel_pairLedger. intros q. by apply accounted_open.
  - intros q Hq. apply accounted_respond; [done|]. apply Hall.
    unfold emit in Hq. by rewrite round_next_ref in Hq.
  - exact Hall.
Qed.

(** X1: every promise the channel has created is accounted for, in every
    world the channel can reach: its closure is still subscribed and
    neither [resolve] nor [reject] has been called, or its closure is
    unsubscribed and exactly one call has been made. *)
Theorem every_request_pending_or_settled_once
    (acts : list Action) (s : Storage) (t : Z) (p : nat) :
  (p < next_ref (history acts (fresh_world s t)))%nat →
  accounted (history acts (fresh_world s t)) p.
Proof.
  apply accounted_history; [apply channel_inv_fresh|].
  simpl. intros q Hq. lia.
Qed.

(** After a prompt, its answer, and the answer once more, the promise of
    the prompt has seen one call. *)
Lemma every_request_pending_or_settled_once_witness :
  accounted
    (history [CallGetPassword AuthPassword; Respond password_response;
              Respond password_response] (fresh_world empty_storage 0)) 0.
Proof.
  apply (every_request_pending_or_settled_once
           [CallGetPassword AuthPassword; Respond password_response;
            Respond password_response] empty_storage 0 0).
  vm_compute. lia.
Defined.

Lemma filter_filter_andb {A} (f g : A → bool) (l : list A) :
  List.filter f (List.filter g l) = List.filter (fun x => g x && f x) l.
Proof.
  induction l as [|x l IH]; simpl; [done|].
  destruct (g x); simpl; [|done]. destruct (f x); by rewrite IH.
Qed.

(** The subscriptions and the calls after one round of [emit], whatever the
    world. *)
Lemma round_callbacks topic m ls acc :
  callbacks (fold_left (deliver_to topic m) ls acc) =
  List.filter
    (fun sub => negb (existsb (fun s => hit topic m s &&
                                        same_subscription "response" s.2 sub) ls))
    (callbacks acc).
Proof.
  revert acc. induction ls as [|s ls IH]; intros acc; simpl.
  - induction (callbacks acc) as [|x l IHl]; simpl; [done|]. by rewrite <- IHl.
  - rewrite IH. destruct (hit topic m s) eqn:Hh.
    + rewrite deliver_hit_callbacks by done. rewrite filter_filter_andb.
      apply List.filter_ext. intros sub. simpl.
      by rewrite negb_orb.
    + rewrite deliver_miss by done. by apply List.filter_ext.
Qed.

Lemma round_log topic m ls acc :
  settle_log (fold_left (deliver_to topic m) ls acc) =
  (rev (map (fun s : string * Listener =>
               (l_ref s.2, settle_with (l_expect s.2) (params m)))
            (List.filter (hit topic m) ls)) ++ settle_log acc)%list.
Proof.
  revert acc. induction ls as [|s ls IH]; intros acc; simpl; [done|].
  rewrite IH. destruct (hit topic m s) eqn:Hh.
  - rewrite deliver_hit_log by done. simpl. by rewrite <- app_assoc.
  - by rewrite deliver_miss.
Qed.

Lemma hit_response (w : World) (m : Message) (sub : string * Listener) :
  channel_inv w → sub ∈ callbacks w →
  hit "response" m sub = id_matches m (l_id sub.2).
Proof. intros Hinv Hin. unfold hit. by rewrite (inv_topic w Hinv sub Hin). Qed.

Lemma respond_exact (w : World) (m : Message) :
  channel_inv w →
  callbacks (emit "response" m w) =
    List.filter (fun sub => negb (id_matches m (l_id sub.2))) (callbacks w) ∧
  settle_log (emit "response" m w) =
    (rev (map (fun sub : string * Listener =>
                 (l_ref sub.2, settle_with (l_expect sub.2) (params m)))
              (List.filter (fun sub => id_matches m (l_id sub.2)) (callbacks w)))
     ++ settle_log w)%list.
Proof.
  intros Hinv. unfold emit. rewrite round_callbacks, round_log. simpl. split.
  - apply List.filter_ext_in. intros sub Hin. apply list_elem_of_In in Hin.
    f_equal. apply eq_true_iff_eq. rewrite existsb_exists. split.
    + intros (s' & Hs' & Hb). apply andb_true_iff in Hb as [Hh Hsame].
      apply list_elem_of_In in Hs'.
      unfold same_subscription in Hsame. apply andb_true_iff in Hsame as [_ Hr].
      apply Nat.eqb_eq in Hr.
      assert (sub = s') as ->.
      { eapply (NoDup_map_inj (fun sub : string * Listener => l_ref sub.2));
          [apply (inv_nodup w Hinv)|done..]. }
      by rewrite <- (hit_response w m s').
    + intros Hid. exists sub. split; [by apply list_elem_of_In|].
      rewrite (hit_response w m sub), Hid by done. simpl.
      unfold same_subscription.
      rewrite (inv_topic w Hinv sub Hin). simpl. apply Nat.eqb_refl.
  - do 3 f_equal. apply List.filter_ext_in. intros sub Hin.
    apply list_elem_of_In in Hin. by apply (hit_response w).
Qed.

(** X3: a response calls exactly the subscribed closures whose id it
    carries, oldest first, each once, and unsubscribes exactly them; the
    other closures stay as they are, in their order. *)
Theorem response_calls_exactly_the_matching_closures
    (acts : list Action) (s : Storage) (t : Z) (m : Message) :
  let w := history acts (fresh_world s t) in
  let w' := act w (Respond m) in
  callbacks w' =
    List.filter (fun sub => negb (id_matches m (l_id sub.2))) (callbacks w) ∧
  settle_log w' =
    (rev (map (fun sub : string * Listener =>
                 (l_ref sub.2, settle_with (l_expect sub.2) (params m)))
              (List.filter (fun sub => id_matches m (l_id sub.2)) (callbacks w)))
     ++ settle_log w)%list.
Proof.
  intros w w'. apply respond_exact, channel_inv_history, channel_inv_fresh.
Qed.

(** X4: a response that carries no id, or an id that no subscribed closure
    waits for (a second answer to a settled request, say), is dropped: it
    calls nobody and unsubscribes nobody. *)
Theorem unmatched_response_is_dropped (w : World) (m : Message) :
  (∀ sub, sub ∈ callbacks w → id_matches m (l_id sub.2) = false) →
  emit "response" m w = log_published "response" m w.
Proof.
  intros Hnone. unfold emit. apply round_miss. intros sub Hin.
  unfold hit. rewrite (Hnone sub Hin). apply andb_false_r.
Qed.

(** A response without id while a password prompt is outstanding. *)
Lemma unmatched_response_is_dropped_witness :
  emit "response" {| method := "response"; msg_id := None; params := VString "pw" |}
       (history [CallGetPassword AuthPassword] empty_world) =
  log_published "response"
    {| method := "response"; msg_id := None; params := VString "pw" |}
    (history [CallGetPassword AuthPassword] empty_world).
Proof.
  apply unmatched_response_is_dropped.
  intros sub Hin. reflexivity.
Defined.

Lemma act_request (w : World) (a : Action) (e : Expect) :
  action_expect a = Some e →
  ∃ topic payload,
    topic ≠ "response" ∧ act w a = open_channel topic payload e w.
Proof.
  destruct a as [auth|boc|path transaction|m|t]; intros [= <-]; cbn [act].
  - rewrite channel_getPassword. eexists _, _. split; [|reflexivity]. done.
  - rewrite channel_pairSigner. eexists _, _. split; [|reflexivity]. done.
  - rewrite channel_pairLedger. eexists _, _. split; [|reflexivity]. done.
Qed.

(** X2: the id of a request is the time stamp and nothing else.  Two
    requests opened in the same millisecond, on whichever channels, carry
    the same id, and one response with that id settles both: each promise
    sees one call, with the same [params], decided by its own test. *)
Theorem same_millisecond_requests_share_response
    (acts : list Action) (s : Storage) (t : Z)
    (a1 a2 : Action) (e1 e2 : Expect) (m : Message) :
  let w := history acts (fresh_world s t) in
  let w' := history [a1; a2; Respond m] w in
  action_expect a1 = Some e1 →
  action_expect a2 = Some e2 →
  msg_id m = Some (clock w) →
  calls (next_ref w) w' = [settle_with e1 (params m)] ∧
  calls (S (next_ref w)) w' = [settle_with e2 (params m)] ∧
  callbacks w' =
    List.filter (fun sub => negb (id_matches m (l_id sub.2))) (callbacks w).
Proof.
  intros w w' H1 H2 Hm. subst w'. cbn [history fold_left].
  assert (Hinv : channel_inv w) by apply channel_inv_history, channel_inv_fresh.
  destruct (act_request w a1 e1 H1) as (t1 & p1 & Ht1 & ->).
  destruct (open_channel_outstanding w t1 p1 e1 Hinv Ht1)
    as (Hinv1 & Ho1 & _ & _ & Hclock).
  set (w1 := open_channel t1 p1 e1 w) in *.
  destruct (act_request w1 a2 e2 H2) as (t2 & p2 & Ht2 & ->).
  destruct (open_channel_outstanding w1 t2 p2 e2 Hinv1 Ht2)
    as (Hinv2 & Ho2 & _).
  assert (Ho1' : outstanding (open_channel t2 p2 e2 w1)
                   {| l_ref := next_ref w; l_id := clock w; l_expect := e1 |}).
  { unfold outstanding. rewrite open_channel_callbacks by done.
    apply elem_of_app. by left. }
  set (w2 := open_channel t2 p2 e2 w1) in *.
  assert (Hn : next_ref w1 = S (next_ref w)) by apply open_channel_next_ref.
  rewrite Hn, Hclock in Ho2.
  pose proof (respond_effect w2 m _ Hinv2 Ho1') as E1.
  pose proof (respond_effect w2 m _ Hinv2 Ho2) as E2.
  cbn [fst snd l_id l_ref l_expect] in E1, E2.
  assert (Hid : id_matches m (clock w) = true)
    by (unfold id_matches; rewrite Hm; apply Z.eqb_refl).
  rewrite Hid in E1, E2. destruct E1 as [E1 G1], E2 as [E2 G2].
  split; [done|]. split; [done|].
  cbn [act]. destruct (respond_exact w2 m Hinv2) as [-> _].
  assert (Hcb2 : callbacks w2 =
    (callbacks w ++
     [("response", {| l_ref := next_ref w; l_id := clock w; l_expect := e1 |});
      ("response", {| l_ref := S (next_ref w); l_id := clock w; l_expect := e2 |})])%list).
  { unfold w2. rewrite open_channel_callbacks by done. rewrite Hn, Hclock.
    unfold w1. rewrite open_channel_callbacks by done. by rewrite <- app_assoc. }
  rewrite Hcb2, List.filter_app. simpl. rewrite Hid. simpl. by rewrite app_nil_r.
Qed.

(** The password prompt and the signer pairing are opened at time 7; the
    password typed by the user also resolves the pairing. *)
Lemma same_millisecond_requests_share_response_witness :
  calls 0 (history [CallGetPassword AuthPassword; CallPairSigner "boc";
                    Respond {| method := "response"; msg_id := Some 7;
                               params := VString "password" |}]
             (fresh_world empty_storage 7)) = [Fulfilled (VString "password")] ∧
  calls 1 (history [CallGetPassword AuthPassword; CallPairSigner "boc";
                    Respond {| method := "response"; msg_id := Some 7;
                               params := VString "password" |}]
             (fresh_world empty_storage 7)) = [Fulfilled (VString "password")].
Proof.
  destruct (same_millisecond_requests_share_response [] empty_storage 7
              (CallGetPassword AuthPassword) (CallPairSigner "boc")
              ExpectString ExpectString
              {| method := "response"; msg_id := Some 7; params := VString "password" |}
              eq_refl eq_refl eq_refl) as (H1 & H2 & _).
  split; [exact H1|exact H2].
Defined.

(** X5: responses are not kept for later.  A request opened after a
    response was published starts pending and subscribed, also when that
    response carried the very id the request gets. *)
Theorem earlier_response_is_not_replayed
    (acts : list Action) (s : Storage) (t : Z) (m : Message)
    (a : Action) (e : Expect) :
  let w := history (acts ++ [Respond m]) (fresh_world s t) in
  action_expect a = Some e →
  outstanding (act w a)
    {| l_ref := next_ref w; l_id := clock w; l_expect := e |} ∧
  calls (next_ref w) (act w a) = [] ∧
  promise_state (next_ref w) (act w a) = None.
Proof.
  intros w Ha.
  assert (Hinv : channel_inv w) by apply channel_inv_history, channel_inv_fresh.
  destruct (act_request w a e Ha) as (topic & payload & Ht & ->).
  destruct (open_channel_outstanding w topic payload e Hinv Ht)
    as (Hinv' & Hout & _).
  pose proof (inv_pending _ Hinv' _ Hout) as Hc. simpl in Hc.
  split; [done|]. split; [done|]. unfold promise_state. by rewrite Hc.
Qed.

(** The answer with id 7 comes before the prompt that is opened at time 7:
    the prompt is pending. *)
Lemma earlier_response_is_not_replayed_witness :
  calls 0 (history [Respond {| method := "response"; msg_id := Some 7;
                               params := VString "pw" |};
                    CallGetPassword AuthPassword] (fresh_world empty_storage 7)) = [].
Proof.
  exact (proj1 (proj2 (earlier_response_is_not_replayed [] empty_storage 7
                         {| method := "response"; msg_id := Some 7;
                            params := VString "pw" |}
                         (CallGetPassword AuthPassword) ExpectString eq_refl))).
Defined.

(** ** The secret provider and the signer factory: the other branches *)

Lemma run_app {A} (evs1 evs2 : list Event) (st : World * Task A) :
  run (evs1 ++ evs2) st = run evs2 (run evs1 st).
Proof. unfold run. apply fold_left_app. Qed.

(** A call that awaits a channel promise and then a platform call: after
    the first response with its id it awaits the platform call. *)
Lemma run_await_first_io {A} (evs : list Event) (w : World) (l : Listener)
    (k : Outcome JsValue → World → World * Task A) (m : Message)
    (k2 : World → World * Task A) :
  channel_inv w → outstanding w l →
  first_response (l_id l) evs = Some m →
  Forall (fun ev => ev ≠ EvIO) evs →
  (∀ w', k (settle_with (l_expect l) (params m)) w' = (w', AwaitIO k2)) →
  run evs (w, AwaitPromise (l_ref l) k) = (world_after evs w, AwaitIO k2).
Proof.
  intros Hinv Ho Hfirst Hio Hk. revert w Hinv Ho Hfirst.
  induction evs as [|ev evs IH]; intros w Hinv Ho Hfirst; [done|].
  apply Forall_cons in Hio as [Hev Hio].
  rewrite run_cons. destruct ev as [m'|t| |]; simpl in Hfirst.
  - rewrite step_await_response by done.
    pose proof (respond_effect w m' ("response", l) Hinv Ho) as He. simpl in He.
    destruct (id_matches m' (l_id l)).
    + injection Hfirst as ->. rewrite Hk. by rewrite run_awaiting_io.
    + destruct He as [_ He]. by apply IH; [|apply channel_inv_respond|..].
  - by apply IH; [|apply channel_inv_clock|..].
  - done.
  - by apply IH.
Qed.

Section SecretProviderMore.
Context `{Platform}.

(** What [getMnemonic] has become when the auth state of a password wallet
    has been read: the prompt is out and its promise awaited. *)
Lemma getMnemonic_prompt (w : World) (publicKey : string) :
  channel_inv w →
  getWalletAuthState (storage w) publicKey = Fulfilled AuthPassword →
  ∃ k,
    step (getMnemonic publicKey w) EvIO =
      (open_channel "getPassword" (VObject [("auth", auth_to_js AuthPassword)])
         ExpectString w,
       AwaitPromise (next_ref w) k) ∧
    (∀ e w', k (Rejected e) w' = (w', Settled (Rejected e))) ∧
    (∀ v w', k (Fulfilled v) w' =
       (w', AwaitIO (fun w1 =>
              (w1, Settled (getWalletMnemonic (storage w1) publicKey v))))).
Proof.
  intros Hinv Hauth.
  destruct (open_channel_outstanding w "getPassword"
              (VObject [("auth", auth_to_js AuthPassword)]) ExpectString Hinv)
    as (Hinv' & Hout & _); [done|].
  set (l := {| l_ref := next_ref w; l_id := clock w; l_expect := ExpectString |}) in *.
  set (w1 := open_channel "getPassword"
               (VObject [("auth", auth_to_js AuthPassword)]) ExpectString w) in *.
  eexists. split; [|split].
  - unfold getMnemonic, step. cbn [bind await_io bind_task fst snd].
    rewrite Hauth. cbn [bind_task]. unfold bind at 1.
    rewrite channel_getPassword. fold w1. unfold await_promise.
    cbn [bind_task]. unfold resume, promise_state. cbn [fst snd].
    change (next_ref w) with (l_ref ("response", l).2).
    rewrite (inv_pending w1 Hinv' ("response", l) Hout). cbn [last].
    reflexivity.
  - done.
  - done.
Qed.

(** X6: for a password wallet, the string that answers the prompt is the
    password the stored secret is opened with: when the first response with
    the id of the prompt carries a string, [getMnemonic] ends as
    [getWalletMnemonic] does for that string, with the mnemonic or with the
    error of a wrong password. *)
Theorem password_answer_opens_the_secret
    (acts : list Action) (s : Storage) (t : Z) (publicKey : string)
    (evs : list Event) (m : Message) (password : string) :
  let w := history acts (fresh_world s t) in
  getWalletAuthState s publicKey = Fulfilled AuthPassword →
  Forall (fun ev => ev ≠ EvIO) evs →
  first_response (clock w) evs = Some m →
  params m = VString password →
  (run (EvIO :: evs ++ [EvIO]) (getMnemonic publicKey w)).2 =
    Settled (getWalletMnemonic s publicKey (VString password)).
Proof.
  intros w Hauth Hio Hfirst Hparams.
  assert (Hinv : channel_inv w) by apply channel_inv_history, channel_inv_fresh.
  assert (Hs : storage w = s) by (unfold w; by rewrite (proj1 (history_frame _ _))).
  rewrite <- Hs in Hauth.
  destruct (getMnemonic_prompt w publicKey Hinv Hauth) as (k & Hstep & _ & Hk).
  destruct (open_channel_outstanding w "getPassword"
              (VObject [("auth", auth_to_js AuthPassword)]) ExpectString Hinv)
    as (Hinv' & Hout & _ & Hs1 & _); [done|].
  set (l := {| l_ref := next_ref w; l_id := clock w; l_expect := ExpectString |}) in *.
  rewrite run_cons, Hstep, run_app.
  rewrite (run_await_first_io evs _ l k m
             (fun w1 => (w1, Settled (getWalletMnemonic (storage w1) publicKey
                                        (VString password))))); try done.
  - simpl. unfold resume. simpl.
    by rewrite (proj1 (world_after_frame evs _)), Hs1, Hs.
  - intros w'. unfold settle_with. rewrite Hparams. simpl. apply Hk.
Qed.
End SecretProviderMore.

(** The prompt opened at time 10 is answered with the string ["1234"]. *)
Lemma password_answer_opens_the_secret_witness :
  (run [EvIO;
        EvResponse {| method := "response"; msg_id := Some 10;
                      params := VString "1234" |};
        EvIO]
       (@getMnemonic (scenario_platform AuthPassword) "pk"
          (fresh_world empty_storage 10))).2 =
  Settled (Fulfilled ["abandon"; "ability"]).
Proof.
  refine (@password_answer_opens_the_secret (scenario_platform AuthPassword)
            [] empty_storage 10 "pk"
            [EvResponse {| method := "response"; msg_id := Some 10;
                           params := VString "1234" |}]
            {| method := "response"; msg_id := Some 10; params := VString "1234" |}
            "1234" _ _ _ _).
  - reflexivity.
  - repeat constructor. discriminate.
  - reflexivity.
  - reflexivity.
Defined.

Lemma split_space_word (a : string) : space_free a = true → split_space a = [a].
Proof.
  induction a as [|c a IH]; simpl; [done|].
  intros Hc. apply andb_true_iff in Hc as [Hc Ha].
  apply negb_true_iff in Hc. by rewrite Hc, IH.
Qed.

Lemma split_space_cons (a rest : string) :
  space_free a = true →
  split_space (a +:+ String Ascii.Space rest) = a :: split_space rest.
Proof.
  induction a as [|c a IH]; simpl; [done|].
  intros Hc. apply andb_true_iff in Hc as [Hc Ha].
  apply negb_true_iff in Hc. by rewrite Hc, IH.
Qed.

Lemma split_space_concat (words : list string) :
  words ≠ [] →
  Forall (fun word => space_free word = true) words →
  split_space (String.concat " " words) = words.
Proof.
  induction words as [|a words IH]; [done|]. intros _ Hall.
  apply Forall_cons in Hall as [Ha Hall].
  destruct words as [|b words].
  - simpl. by apply split_space_word.
  - change (String.concat " " (a :: b :: words))
      with (a +:+ String Ascii.Space (String.concat " " (b :: words))).
    rewrite split_space_cons by done. by rewrite IH.
Qed.

Section Keychain.
Context `{Platform}.

(** X7: for a keychain wallet [getMnemonic] never prompts.  Without a
    keychain on the platform it throws ['Keychain is undefined']; with one,
    a stored phrase of words separated by single spaces comes back as the
    list of its words, and an empty stored phrase as the one-word list of
    the empty word. *)
Theorem keychain_phrase_words
    (w : World) (publicKey : string) (words : list string) :
  getWalletAuthState (storage w) publicKey = Fulfilled AuthKeychain →
  words ≠ [] →
  Forall (fun word => space_free word = true) words →
  (keychain = None →
   call_alone (getMnemonic publicKey) w =
     (w, Some (Rejected (VError "Keychain is undefined")))) ∧
  (∀ getPassword, keychain = Some getPassword →
     (getPassword publicKey = Fulfilled (String.concat " " words) →
      call_alone (getMnemonic publicKey) w = (w, Some (Fulfilled words))) ∧
     (getPassword publicKey = Fulfilled "" →
      call_alone (getMnemonic publicKey) w = (w, Some (Fulfilled [""]))) ∧
     (∀ e, getPassword publicKey = Rejected e →
      call_alone (getMnemonic publicKey) w = (w, Some (Rejected e)))).
Proof.
  intros Hauth Hne Hwords. split.
  - intros Hk. unfold call_alone, getMnemonic. simpl. by rewrite Hauth, Hk.
  - intros getPassword Hk. split; [|split].
    + intros Hget. unfold call_alone, getMnemonic. simpl.
      rewrite Hauth, Hk. simpl. rewrite Hget. simpl.
      by rewrite split_space_concat.
    + intros Hget. unfold call_alone, getMnemonic. simpl.
      rewrite Hauth, Hk. simpl. by rewrite Hget.
    + intros e Hget. unfold call_alone, getMnemonic. simpl.
      rewrite Hauth, Hk. simpl. by rewrite Hget.
Qed.
End Keychain.

Lemma keychain_phrase_words_witness :
  call_alone (@getMnemonic (keychain_platform "abandon ability able") "pk") empty_world =
  (empty_world, Some (Fulfilled ["abandon"; "ability"; "able"])).
Proof.
  refine (proj1 (proj2 (@keychain_phrase_words (keychain_platform "abandon ability able")
            empty_world "pk" ["abandon"; "ability"; "able"] _ _ _) _ eq_refl) _).
  - reflexivity.
  - discriminate.
  - repeat constructor.
  - reflexivity.
Defined.

Section SignBuffer.
Context `{Platform} `{Crypto}.

(** X8: [signTonConnectOver] signs no buffer for a wallet held by the
    signer application or by a ledger: it throws its own message for the
    auth states [signer] and [signer-deeplink], and for [ledger] the
    ['Unexpected auth method'] of [getMnemonic]; in the three cases nothing
    is published and nothing else changes. *)
Theorem sign_buffer_refused
    (w : World) (publicKey bufferToSign : string) (auth : AuthState) :
  getWalletAuthState (storage w) publicKey = Fulfilled auth →
  (auth = AuthSigner →
   call_alone (signTonConnectOver publicKey bufferToSign) w =
     (w, Some (Rejected (VError "Signer linked by QR is not support sign buffer.")))) ∧
  (auth = AuthSignerDeepLink →
   call_alone (signTonConnectOver publicKey bufferToSign) w =
     (w, Some (Rejected
                 (VError "Signer linked by deep link is not support sign buffer.")))) ∧
  (auth = AuthLedger →
   call_alone (signTonConnectOver publicKey bufferToSign) w =
     (w, Some (Rejected (VError "Unexpected auth method")))).
Proof.
  intros Hauth.
  split; [|split]; intros ->;
    unfold call_alone, signTonConnectOver, getMnemonic; simpl;
    rewrite Hauth; simpl; by rewrite ?Hauth.
Qed.

(** X9: for a wallet without password, [signTonConnectOver] reads the
    mnemonic with the password ['none'], derives the key pair and signs the
    SHA-256 of the buffer, not the buffer; it publishes nothing. *)
Theorem sign_buffer_without_password
    (w : World) (publicKey bufferToSign : string)
    (mnemonic : list string) (keyPair : KeyPair) :
  getWalletAuthState (storage w) publicKey = Fulfilled AuthNone →
  getWalletMnemonic (storage w) publicKey (VString "none") = Fulfilled mnemonic →
  mnemonicToPrivateKey mnemonic = Fulfilled keyPair →
  call_alone (signTonConnectOver publicKey bufferToSign) w =
    (w, Some (Fulfilled (nacl_sign_detached (sha256_sync bufferToSign)
                                            (secretKey keyPair)))).
Proof.
  intros Hauth Hmn Hkp.
  unfold call_alone, signTonConnectOver, getMnemonic. simpl.
  rewrite Hauth. simpl. rewrite Hauth. simpl. rewrite Hmn. simpl.
  by rewrite Hkp.
Qed.
End SignBuffer.

Lemma sign_buffer_refused_witness :
  call_alone (@signTonConnectOver (scenario_platform AuthLedger) scenario_crypto
                "pk" "proof") empty_world =
  (empty_world, Some (Rejected (VError "Unexpected auth method"))).
Proof.
  exact (proj2 (proj2 (@sign_buffer_refused (scenario_platform AuthLedger)
                         scenario_crypto empty_world "pk" "proof" AuthLedger eq_refl))
               eq_refl).
Defined.

Lemma sign_buffer_without_password_witness :
  call_alone (@signTonConnectOver (scenario_platform AuthNone) scenario_crypto
                "pk" "proof") empty_world =
  (empty_world, Some (Fulfilled "sig(sha256(proof),secret)")).
Proof.
  exact (@sign_buffer_without_password (scenario_platform AuthNone) scenario_crypto
           empty_world "pk" "proof" ["abandon"; "ability"]
           {| kp_publicKey := "public"; secretKey := "secret" |}
           eq_refl eq_refl eq_refl).
Defined.

Lemma world_after_published (evs : list Event) (w : World) (topic : string) :
  topic ≠ "response" →
  List.filter (fun entry : string * Message => String.eqb entry.1 topic)
              (published (world_after evs w)) =
  List.filter (fun entry : string * Message => String.eqb entry.1 topic) (published w).
Proof.
  intros Ht. revert w. induction evs as [|ev evs IH]; intros w; [done|].
  destruct ev as [m|t| |]; cbn [world_after fold_left].
  - fold (world_after evs (emit "response" m w)).
    rewrite IH. destruct (emit_frame "response" m w) as (_ & _ & _ & ->).
    cbn [List.filter fst].
    destruct (String.eqb_spec "response" topic) as [E|E]; [|done].
    by destruct Ht.
  - apply (IH (set_clock t w)).
  - apply IH.
  - apply IH.
Qed.

Section SignerFactoryMore.
Context `{Platform}.

(** X10: for a wallet paired with the signer application, [getSigner]
    fulfils with a signer tagged [cell].  Its callback publishes one
    message, on ['signer'], with the message as base64 BOC; it stays
    pending until the first response with its id, then ends as
    [parseSignerSignature] does on the [params] when they are a string, and
    rejected with the [params], unparsed, when they are not. *)
Theorem signer_app_signature
    (w0 : World) (publicKey : string) :
  getWalletAuthState (storage w0) publicKey = Fulfilled AuthSigner →
  ∃ callback,
    call_alone (getSigner publicKey) w0 =
      (w0, Some (Fulfilled (CellSigner callback))) ∧
    ∀ (acts : list Action) (s : Storage) (t : Z) (message : Cell) (evs : list Event),
      let w := history acts (fresh_world s t) in
      let st := callback message w in
      published st.1 =
        ("signer", {| method := "signer"; msg_id := Some (clock w);
                      params := VString (cell_boc_base64 message) |}) :: published w ∧
      (run evs st).2 =
        match first_response (clock w) evs with
        | Some m =>
            Settled (if String.eqb (typeof (params m)) "string"
                     then parseSignerSignature (params m)
                     else Rejected (params m))
        | None => st.2
        end.
Proof.
  intros Hauth. eexists. split.
  { unfold call_alone, getSigner. simpl. rewrite Hauth. reflexivity. }
  intros acts s t message evs w st. subst st.
  assert (Hinv : channel_inv w) by apply channel_inv_history, channel_inv_fresh.
  unfold bind. rewrite channel_pairSigner.
  destruct (open_channel_outstanding w "signer"
              (VString (cell_boc_base64 message)) ExpectString Hinv)
    as (Hinv' & Hout & Hpub & _); [done|].
  unfold await_promise. cbn [bind_task fst snd]. split; [done|].
  set (l := {| l_ref := next_ref w; l_id := clock w; l_expect := ExpectString |}) in *.
  change (next_ref w) with (l_ref l). change (clock w) with (l_id l).
  destruct (first_response (l_id l) evs) as [m|] eqn:Hfirst.
  - apply (run_await_first evs _ l _ m); [done..|].
    intros w'. unfold settle_with. simpl.
    by destruct (String.eqb (typeof (params m)) "string").
  - by apply run_await_none.
Qed.

(** What [getSigner] has become when the auth state of a password wallet
    has been read twice, by [getSigner] and by [getMnemonic]. *)
Lemma getSigner_prompt (w : World) (publicKey : string) :
  channel_inv w →
  getWalletAuthState (storage w) publicKey = Fulfilled AuthPassword →
  ∃ k,
    run [EvIO; EvIO] (getSigner publicKey w) =
      (open_channel "getPassword" (VObject [("auth", auth_to_js AuthPassword)])
         ExpectString w,
       AwaitPromise (next_ref w) k) ∧
    (∀ e w', k (Rejected e) w' = (w', Settled (Rejected e))) ∧
    (∀ v, ∃ k2,
       (∀ w', k (Fulfilled v) w' = (w', AwaitIO k2)) ∧
       (∀ e w1, getWalletMnemonic (storage w1) publicKey v = Rejected e →
                k2 w1 = (w1, Settled (Rejected e))) ∧
       (∀ mnemonic w1,
          getWalletMnemonic (storage w1) publicKey v = Fulfilled mnemonic →
          ∃ callback,
            k2 w1 = (w1, Settled (Fulfilled (CellSigner callback))) ∧
            ∀ w2 message,
              call_alone (callback message) w2 =
              (w2, Some (match mnemonicToPrivateKey mnemonic with
                         | Fulfilled keyPair =>
                             Fulfilled (sign (cell_hash message) (secretKey keyPair))
                         | Rejected e => Rejected e
                         end)))).
Proof.
  intros Hinv Hauth.
  destruct (open_channel_outstanding w "getPassword"
              (VObject [("auth", auth_to_js AuthPassword)]) ExpectString Hinv)
    as (Hinv' & Hout & _); [done|].
  set (l := {| l_ref := next_ref w; l_id := clock w; l_expect := ExpectString |}) in *.
  set (w1 := open_channel "getPassword"
               (VObject [("auth", auth_to_js AuthPassword)]) ExpectString w) in *.
  eexists. split; [|split].
  - unfold run. cbn [fold_left]. unfold getSigner, getMnemonic, step.
    cbn [bind await_io bind_task fst snd resume].
    rewrite Hauth. cbn [bind_task bind await_io fst snd resume].
    rewrite Hauth. cbn [bind_task]. unfold bind at 1.
    rewrite channel_getPassword. fold w1. unfold await_promise.
    cbn [bind_task]. unfold resume, promise_state. cbn [fst snd].
    change (next_ref w) with (l_ref ("response", l).2).
    rewrite (inv_pending w1 Hinv' ("response", l) Hout). cbn [last].
    reflexivity.
  - done.
  - intros v. eexists. split; [reflexivity|]. split.
    + intros e w2 Hm. simpl. by rewrite Hm.
    + intros mnemonic w2 Hm. eexists. split.
      * simpl. rewrite Hm. reflexivity.
      * intros w3 message. unfold call_alone. simpl.
        by destruct (mnemonicToPrivateKey mnemonic).
Qed.

(** X11: for a password wallet [getSigner] itself asks for the password,
    once, and fetches the mnemonic before it returns.  Answered with a
    string that opens the secret, it fulfils with a signer tagged [cell]
    whose callback signs the hash of the message with the key derived from
    that mnemonic, in whatever world it is called, without changing that
    world: no second prompt, no storage access. *)
Theorem password_signer_holds_the_mnemonic
    (acts : list Action) (s : Storage) (t : Z) (publicKey : string)
    (evs : list Event) (m : Message) (password : string) (mnemonic : list string) :
  let w := history acts (fresh_world s t) in
  getWalletAuthState s publicKey = Fulfilled AuthPassword →
  Forall (fun ev => ev ≠ EvIO) evs →
  first_response (clock w) evs = Some m →
  params m = VString password →
  getWalletMnemonic s publicKey (VString password) = Fulfilled mnemonic →
  ∃ callback,
    (run ([EvIO; EvIO] ++ evs ++ [EvIO]) (getSigner publicKey w)).2 =
      Settled (Fulfilled (CellSigner callback)) ∧
    signer_type (CellSigner callback) = "cell" ∧
    List.filter (fun entry => String.eqb entry.1 "getPassword")
      (published (run ([EvIO; EvIO] ++ evs ++ [EvIO]) (getSigner publicKey w)).1) =
    ("getPassword",
     {| method := "getPassword"; msg_id := Some (clock w);
        params := VObject [("auth", auth_to_js AuthPassword)] |})
      :: List.filter (fun entry => String.eqb entry.1 "getPassword") (published w) ∧
    ∀ w' message,
      call_alone (callback message) w' =
      (w', Some (match mnemonicToPrivateKey mnemonic with
                 | Fulfilled keyPair =>
                     Fulfilled (sign (cell_hash message) (secretKey keyPair))
                 | Rejected e => Rejected e
                 end)).
Proof.
  intros w Hauth Hio Hfirst Hparams Hmn.
  assert (Hinv : channel_inv w) by apply channel_inv_history, channel_inv_fresh.
  assert (Hs : storage w = s) by (unfold w; by rewrite (proj1 (history_frame _ _))).
  rewrite <- Hs in Hauth.
  destruct (getSigner_prompt w publicKey Hinv Hauth) as (k & Hrun & _ & Hk).
  destruct (Hk (VString password)) as (k2 & Hk2 & _ & Hdone).
  destruct (open_channel_outstanding w "getPassword"
              (VObject [("auth", auth_to_js AuthPassword)]) ExpectString Hinv)
    as (Hinv' & Hout & Hpub & Hs1 & _); [done|].
  set (l := {| l_ref := next_ref w; l_id := clock w; l_expect := ExpectString |}) in *.
  set (w1 := open_channel "getPassword"
               (VObject [("auth", auth_to_js AuthPassword)]) ExpectString w) in *.
  destruct (Hdone mnemonic (world_after evs w1)) as (callback & Hcb & Hsign).
  { by rewrite (proj1 (world_after_frame evs w1)), Hs1, Hs. }
  exists callback.
  assert (Hfinal : run ([EvIO; EvIO] ++ evs ++ [EvIO]) (getSigner publicKey w) =
                   (world_after evs w1, Settled (Fulfilled (CellSigner callback)))).
  { rewrite !run_app, Hrun. change (next_ref w) with (l_ref l).
    rewrite (run_await_first_io evs w1 l k m k2); try done.
    - unfold run. cbn [fold_left]. unfold step. cbn [fst snd]. by rewrite Hcb.
    - intros w'. unfold settle_with. rewrite Hparams. simpl. apply Hk2. }
  rewrite Hfinal. cbn [fst snd]. split; [done|]. split; [done|]. split; [|done].
  rewrite world_after_published by done. by rewrite Hpub.
Qed.
End SignerFactoryMore.

(** The signer application answers the pairing opened at time 7 with a
    signature string. *)
Lemma signer_app_signature_witness :
  ∃ callback,
    call_alone (@getSigner (scenario_platform AuthSigner) "pk") empty_world =
      (empty_world, Some (Fulfilled (CellSigner callback))) ∧
    (run [EvResponse {| method := "response"; msg_id := Some 7;
                        params := VString "signature" |}]
         (callback scenario_cell (fresh_world empty_storage 7))).2 =
      Settled (Fulfilled "signature").
Proof.
  destruct (@signer_app_signature (scenario_platform AuthSigner) empty_world "pk"
              eq_refl) as (callback & Hget & Hrun).
  exists callback. split; [exact Hget|].
  exact (proj2 (Hrun [] empty_storage 7 scenario_cell
                  [EvResponse {| method := "response"; msg_id := Some 7;
                                 params := VString "signature" |}])).
Defined.

(** The prompt of [getSigner], opened at time 10, is answered ["1234"]; the
    signer then signs in another world, which it leaves as it is. *)
Lemma password_signer_holds_the_mnemonic_witness :
  ∃ callback,
    (run [EvIO; EvIO;
          EvResponse {| method := "response"; msg_id := Some 10;
                        params := VString "1234" |};
          EvIO]
         (@getSigner (scenario_platform AuthPassword) "pk"
            (fresh_world empty_storage 10))).2 =
      Settled (Fulfilled (CellSigner callback)) ∧
    call_alone (callback scenario_cell) world_W_V =
      (world_W_V, Some (Fulfilled "hashsecret")).
Proof.
  destruct (@password_signer_holds_the_mnemonic (scenario_platform AuthPassword)
              [] empty_storage 10 "pk"
              [EvResponse {| method := "response"; msg_id := Some 10;
                             params := VString "1234" |}]
              {| method := "response"; msg_id := Some 10; params := VString "1234" |}
              "1234" ["abandon"; "ability"] eq_refl
              ltac:(repeat constructor; discriminate) eq_refl eq_refl eq_refl)
    as (callback & Hrun & _ & _ & Hsign).
  exists callback. split; [exact Hrun|]. exact (Hsign world_W_V scenario_cell).
Defined.

(** ** The connections shown for the active wallet *)

Lemma url_differs_false (i item : AccountConnection) :
  url_differs i item = false ↔ webViewUrl i = webViewUrl item.
Proof.
  unfold url_differs. destruct (webViewUrl i) as [a|], (webViewUrl item) as [b|];
    try (split; [discriminate|discriminate]); [|done].
  rewrite negb_false_iff, String.eqb_eq. split; congruence.
Qed.

Lemma forallb_url_differs (set : list AccountConnection) (item : AccountConnection) :
  forallb (fun i => url_differs i item) set = true ↔
  webViewUrl item ∉ map webViewUrl set.
Proof.
  rewrite forallb_forall. split.
  - intros Hall Hin. apply list_elem_of_fmap in Hin as (i & E & Hi).
    apply list_elem_of_In, Hall in Hi.
    assert (url_differs i item = false) by (by apply url_differs_false).
    congruence.
  - intros Hnot i Hi. destruct (url_differs i item) eqn:E; [done|].
    destruct Hnot. apply url_differs_false in E. rewrite <- E.
    by apply (list_elem_of_fmap_2 webViewUrl), list_elem_of_In.
Qed.

(** The pass over the connections, from any set without repeated url. *)
Lemma push_pass (rest set : list AccountConnection) :
  NoDup (map webViewUrl set) →
  ∃ added,
    fold_left push_unless_shown rest set = (set ++ added)%list ∧
    sublist added rest ∧
    NoDup (map webViewUrl (set ++ added)) ∧
    (∀ item, item ∈ rest →
             webViewUrl item ∈ map webViewUrl (set ++ added)) ∧
    (∀ pre item post, rest = (pre ++ item :: post)%list →
       webViewUrl item ∉ map webViewUrl (set ++ pre) → item ∈ added).
Proof.
  revert set. induction rest as [|x rest IH]; intros set Hnd.
  - exists []. rewrite app_nil_r. split; [done|]. split; [done|]. split; [done|].
    split.
    + intros item Hin. by apply elem_of_nil in Hin.
    + intros pre item post E. by destruct pre.
  - cbn [fold_left]. unfold push_unless_shown at 2.
    destruct (forallb (fun i => url_differs i x) set) eqn:Hfresh.
    + apply forallb_url_differs in Hfresh.
      destruct (IH (set ++ [x])%list) as (added & -> & Hsub & Hnd' & Hall & Hfirst).
      { rewrite map_app. apply NoDup_app. split; [done|]. split.
        - intros u Hu Hx. apply list_elem_of_singleton in Hx. by subst.
        - apply NoDup_singleton. }
      exists (x :: added). rewrite <- app_assoc in *. simpl in *.
      split; [done|]. split; [by constructor|]. split; [done|]. split.
      * intros item Hin. apply elem_of_cons in Hin as [->|Hin]; [|by apply Hall].
        apply (list_elem_of_fmap_2 webViewUrl). apply elem_of_app. right. left.
      * intros pre item post E Hnot. destruct pre as [|y pre]; simpl in E.
        -- injection E as <- <-. left.
        -- injection E as <- ->. right. apply (Hfirst pre item post eq_refl).
           by rewrite <- app_assoc.
    + destruct (IH set Hnd) as (added & -> & Hsub & Hnd' & Hall & Hfirst).
      exists added. split; [done|]. split; [by constructor|]. split; [done|].
      assert (Hx : webViewUrl x ∈ map webViewUrl set).
      { destruct (decide (webViewUrl x ∈ map webViewUrl set)) as [?|Hn]; [done|].
        apply forallb_url_differs in Hn. congruence. }
      split.
      * intros item Hin. apply elem_of_cons in Hin as [->|Hin]; [|by apply Hall].
        rewrite map_app. apply elem_of_app. by left.
      * intros pre item post E Hnot. destruct pre as [|y pre]; simpl in E.
        -- injection E as <- <-. destruct Hnot. by rewrite app_nil_r.
        -- injection E as <- ->. apply (Hfirst pre item post eq_refl).
           intros Hin. apply Hnot. rewrite map_app in Hin |- *.
           apply elem_of_app in Hin as [Hin|Hin]; apply elem_of_app; [by left|].
           right. simpl. by right.
Qed.

(** X12: in an extension the connections shown are those of all wallets
    with one connection for each [webViewUrl]: no two of the result share a
    url (connections without url count as sharing one), the result keeps
    the order of the stored connections, every stored url is shown, and the
    one shown for a url is the first stored with it. *)
Theorem extension_connections_one_per_url
    (wallet : TonContract)
    (appConnections : list (TonWalletStandard * list AccountConnection)) :
  ∃ shown,
    useActiveWalletTonConnectConnections "extension" wallet (Some appConnections) =
      Some shown ∧
    NoDup (map webViewUrl shown) ∧
    sublist shown (flat_map snd appConnections) ∧
    (∀ item, item ∈ flat_map snd appConnections →
             webViewUrl item ∈ map webViewUrl shown) ∧
    (∀ pre item post,
       flat_map snd appConnections = (pre ++ item :: post)%list →
       webViewUrl item ∉ map webViewUrl pre → item ∈ shown).
Proof.
  destruct (push_pass (flat_map snd appConnections) [])
    as (added & E & Hsub & Hnd & Hall & Hfirst); [constructor|].
  exists added. simpl in *. rewrite E. done.
Qed.

Example extension_connections_scenario :
  useActiveWalletTonConnectConnections "extension" (StandardWallet wallet_W)
    (Some [(wallet_W, [conn_site "1" "https://x"; conn_a]);
           (wallet_V, [conn_site "2" "https://x"; conn_b; conn_site "3" "https://y"])]) =
  Some [conn_site "1" "https://x"; conn_a; conn_site "3" "https://y"].
Proof. reflexivity. Qed.

Lemma extension_connections_one_per_url_witness :
  ∃ shown,
    useActiveWalletTonConnectConnections "extension" (StandardWallet wallet_W)
      (Some [(wallet_W, [conn_site "1" "https://x"; conn_a]);
             (wallet_V, [conn_site "2" "https://x"; conn_site "3" "https://y"])]) =
      Some shown ∧
    conn_site "3" "https://y" ∈ shown.
Proof.
  destruct (extension_connections_one_per_url (StandardWallet wallet_W)
              [(wallet_W, [conn_site "1" "https://x"; conn_a]);
               (wallet_V, [conn_site "2" "https://x"; conn_site "3" "https://y"])])
    as (shown & E & _ & _ & _ & Hfirst).
  exists shown. split; [exact E|].
  apply (Hfirst [conn_site "1" "https://x"; conn_a; conn_site "2" "https://x"]
                (conn_site "3" "https://y") []); [reflexivity|].
  vm_compute. intros Hin. repeat (apply elem_of_cons in Hin as [Hin|Hin]; [discriminate|]).
  by apply elem_of_nil in Hin.
Defined.

Lemma find_entry {A} (f : A → bool) (l : list A) (x : A) :
  x ∈ l → f x = true → (∀ y, y ∈ l → f y = true → y = x) → List.find f l = Some x.
Proof.
  induction l as [|a l IH]; intros Hin Hx Huniq; [by apply elem_of_nil in Hin|].
  simpl. destruct (f a) eqn:Ha.
  - f_equal. apply Huniq; [left|done].
  - apply elem_of_cons in Hin as [->|Hin]; [congruence|].
    apply IH; [done..|]. intros y Hy. apply Huniq. by right.
Qed.

(** X13: outside an extension the connections shown are those of the entry
    of the active wallet: with one entry for each wallet id, the entry
    whose wallet has the id of the active wallet gives the result, and
    there is none when no entry has that id or when the entries are not
    loaded. *)
Theorem active_wallet_connections_lookup
    (target : string) (wallet : TonContract)
    (appConnections : list (TonWalletStandard * list AccountConnection)) :
  String.eqb target "extension" = false →
  NoDup (map (fun entry : TonWalletStandard * list AccountConnection =>
                wallet_id entry.1) appConnections) →
  (∀ entry, entry ∈ appConnections → wallet_id entry.1 = contract_id wallet →
     useActiveWalletTonConnectConnections target wallet (Some appConnections) =
       Some entry.2) ∧
  ((∀ entry, entry ∈ appConnections → wallet_id entry.1 ≠ contract_id wallet) →
   useActiveWalletTonConnectConnections target wallet (Some appConnections) = None) ∧
  useActiveWalletTonConnectConnections target wallet None = None.
Proof.
  intros Htarget Hnd. unfold useActiveWalletTonConnectConnections. rewrite Htarget.
  split; [|split; [|done]].
  - intros entry Hin Hid.
    rewrite (find_entry _ appConnections entry); [done|done| |].
    + by apply String.eqb_eq.
    + intros y Hy Hf. apply String.eqb_eq in Hf.
      eapply (NoDup_map_inj (fun entry : TonWalletStandard * list AccountConnection =>
                               wallet_id entry.1)); [exact Hnd|done..|congruence].
  - intros Hnone. destruct (List.find _ _) as [entry|] eqn:E; [|done].
    apply List.find_some in E as [Hin Hf]. apply String.eqb_eq in Hf.
    by destruct (Hnone entry (proj2 (list_elem_of_In _ _) Hin)).
Qed.

Lemma active_wallet_connections_lookup_witness :
  useActiveWalletTonConnectConnections "web" (StandardWallet wallet_V)
    (Some [(wallet_W, [conn_a; conn_b]); (wallet_V, [conn_a])]) = Some [conn_a].
Proof.
  refine (proj1 (active_wallet_connections_lookup "web" (StandardWallet wallet_V)
            [(wallet_W, [conn_a; conn_b]); (wallet_V, [conn_a])] eq_refl _)
            (wallet_V, [conn_a]) _ eq_refl).
  - vm_compute. repeat constructor; intros Hin;
      repeat (apply elem_of_cons in Hin as [Hin|Hin]; [discriminate|]);
      by apply elem_of_nil in Hin.
  - right. left.
Defined.

(** ** The disconnect mutation: the other paths *)

Lemma stored_after_disconnect (ctx : DisconnectContext)
    (removed : list AccountConnection) (w : World) (wallet : TonWalletStandard) :
  stored (after_disconnect ctx removed w) wallet = stored w wallet.
Proof. unfold stored. by rewrite after_disconnect_storage. Qed.

(** The pooled disconnects of an extension, under any schedule, keep the
    invariant of the pool. *)
Lemma collect_extension (ctx : DisconnectContext) (schedule : list nat)
    (connection : Target) (wallet : TonWalletStandard) (w : World) :
  targetEnv ctx = "extension" →
  ∃ w1 pool,
    pool_inv connection w (fan_out_wallets ctx) (w1, pool) ∧
    collectDisconnected ctx schedule connection wallet w =
      (w1, match promise_all pool with
           | Some (Fulfilled lists) => Some (Fulfilled (concat lists))
           | Some (Rejected e) => Some (Rejected e)
           | None => None
           end).
Proof.
  intros Henv. unfold collectDisconnected. rewrite Henv. simpl.
  pose proof (pool_inv_run connection w (fan_out_wallets ctx) schedule _
                (pool_inv_start connection w (fan_out_wallets ctx))) as Hinv.
  rewrite <- (start_all_pool connection w (fan_out_wallets ctx)) in Hinv.
  destruct (run_pool schedule _) as [w1 pool]. by exists w1, pool.
Qed.

Lemma pool_results (connection : Target) (w w1 : World)
    (wallets : list TonWalletStandard)
    (pool : list (Task (list AccountConnection)))
    (lists : list (list AccountConnection)) :
  pool_inv connection w wallets (w1, pool) →
  promise_all pool = Some (Fulfilled lists) →
  Forall2 (fun wallet removed =>
             ∃ cs, removed = connectionsToDisconnect connection cs)
          wallets lists.
Proof.
  intros [Htasks _ _ _] Hall. simpl in Htasks.
  apply promise_all_values in Hall.
  apply Forall2_same_length_lookup. split.
  - by rewrite (Forall2_length _ _ _ Htasks), (Forall2_length _ _ _ Hall).
  - intros i wallet removed Hw Hr.
    destruct (Forall2_lookup_l _ _ _ _ _ Htasks Hw) as (t & Ht & Hok).
    destruct (Forall2_lookup_l _ _ _ _ _ Hall Ht) as (r & Hr' & Hv).
    assert (r = removed) as -> by congruence.
    destruct Hok as [?|cs ? ?|cs Hseen Hstored Hcs]; simpl in Hv; try discriminate.
    injection Hv as <-. eauto.
Qed.

Lemma concat_singletons {A} (c : A) (lists : list (list A)) (n : nat) :
  List.length lists = n → Forall (fun l => l = [c]) lists →
  concat lists = replicate n c.
Proof.
  revert n. induction lists as [|l lists IH]; intros n Hn Hall; simpl in *.
  - by subst.
  - apply Forall_cons in Hall as [-> Hall]. destruct n as [|n]; [done|].
    simpl. f_equal. apply IH; [lia|done].
Qed.

(** X14: in an extension, disconnecting one connection gives a removal
    list with one copy of that connection for each tracked wallet, whether
    the wallet held it or not and in whatever order the storage calls were
    served: with three tracked wallets the connection is broadcast three
    times in one list and its session is unsubscribed three times. *)
Theorem extension_single_disconnect_repeats
    (ctx : DisconnectContext) (schedule : list nat) (c : AccountConnection)
    (w w' : World) (active : TonWalletStandard) :
  targetEnv ctx = "extension" →
  active_wallet ctx = StandardWallet active →
  useDisconnectTonConnectApp ctx schedule (One c) w = (w', Some (Fulfilled tt)) →
  ∃ w1,
    w' = after_disconnect ctx
           (replicate (List.length (fan_out_wallets ctx)) c) w1 ∧
    disconnected w1 = disconnected w ∧
    unsubscribed w1 = unsubscribed w.
Proof.
  intros Henv Hactive. unfold useDisconnectTonConnectApp. rewrite Hactive.
  destruct (collect_extension ctx schedule (One c) active w Henv)
    as (w1 & pool & Hinv & ->).
  destruct (promise_all pool) as [[lists|e]|] eqn:Hall; intros [= <-].
  pose proof (pool_results _ _ _ _ _ _ Hinv Hall) as Hres.
  destruct Hinv as [_ _ _ [Hd Hu]]. simpl in Hd, Hu.
  exists w1. split; [|done]. f_equal.
  apply concat_singletons.
  - symmetry. apply (Forall2_length _ _ _ Hres).
  - apply Forall_forall. intros l Hl.
    apply list_elem_of_lookup_1 in Hl as [i Hi].
    destruct (Forall2_lookup_r _ _ _ _ _ Hres Hi) as (wallet & _ & cs & ->). done.
Qed.

(** Wallets [W] and [V] are tracked; [V] does not hold session [b], and
    [b] is reported twice. *)
Lemma extension_single_disconnect_repeats_witness :
  ∃ w1,
    (useDisconnectTonConnectApp extension_two_wallets [0; 1; 1; 0]%nat (One conn_b)
       world_W_V).1 =
    after_disconnect extension_two_wallets [conn_b; conn_b] w1.
Proof.
  destruct (extension_single_disconnect_repeats extension_two_wallets [0; 1; 1; 0]%nat
              conn_b world_W_V
              (useDisconnectTonConnectApp extension_two_wallets [0; 1; 1; 0]%nat
                 (One conn_b) world_W_V).1
              wallet_W eq_refl eq_refl) as (w1 & E & _).
  - vm_compute. reflexivity.
  - exists w1. exact E.
Defined.



(** X16: outside an extension the mutation disconnects the active wallet
    and no other, whatever accounts are tracked: the set of the active
    wallet is what its per-wallet disconnect leaves, every wallet with
    another id keeps its set, even when it holds the same session, and the
    removal list of that one disconnect is what is broadcast (unless
    [skipEmit]) and unsubscribed (when there is a notification service). *)
Theorem plain_disconnect_touches_active_wallet_only
    (ctx : DisconnectContext) (schedule : list nat) (connection : Target)
    (w : World) (active : TonWalletStandard) :
  String.eqb (targetEnv ctx) "extension" = false →
  active_wallet ctx = StandardWallet active →
  let removed := connectionsToDisconnect connection (stored w active) in
  let (w', result) := useDisconnectTonConnectApp ctx schedule connection w in
  result = Some (Fulfilled tt) ∧
  stored w' active = retained connection (stored w active) ∧
  (∀ other, wallet_id other ≠ wallet_id active → stored w' other = stored w other) ∧
  disconnected w' =
    (if skipEmit ctx then disconnected w else removed :: disconnected w) ∧
  unsubscribed w' =
    (if has_notifications ctx
     then (unsubscribed w ++ map clientSessionId removed)%list
     else unsubscribed w).
Proof.
  intros Henv Hactive removed.
  unfold useDisconnectTonConnectApp, collectDisconnected. rewrite Hactive, Henv.
  cbn [negb]. rewrite disconnectFromWallet_alone.
  split; [done|]. rewrite stored_after_disconnect.
  split; [apply (stored_set_same w)|]. split.
  - intros other Hne. rewrite stored_after_disconnect. by apply (stored_set_other w).
  - unfold after_disconnect. by destruct (skipEmit ctx), (has_notifications ctx).
Qed.

(** The plain disconnect of everything, with [skipEmit]: [V] keeps its
    session [a], nothing is broadcast, sessions [a] and [b] of [W] are
    unsubscribed. *)
Lemma plain_disconnect_touches_active_wallet_only_witness :
  stored (useDisconnectTonConnectApp web_skip_emit [] All world_W_V).1 wallet_V =
    [conn_a] ∧
  disconnected (useDisconnectTonConnectApp web_skip_emit [] All world_W_V).1 = [] ∧
  unsubscribed (useDisconnectTonConnectApp web_skip_emit [] All world_W_V).1 =
    ["a"; "b"].
Proof.
  pose proof (plain_disconnect_touches_active_wallet_only web_skip_emit [] All
                world_W_V wallet_W eq_refl eq_refl) as H.
  cbv zeta in H.
  destruct (useDisconnectTonConnectApp web_skip_emit [] All world_W_V) as [w' result].
  destruct H as (_ & _ & Hother & Hd & Hu). simpl. split; [|split].
  - rewrite (Hother wallet_V); [by vm_compute|]. vm_compute. discriminate.
  - rewrite Hd. reflexivity.
  - rewrite Hu. by vm_compute.
Defined.

(** ** The connect mutation *)

Section ConnectProofs.
Context `{ConnectServices}.
Variables (account : ActiveAccount) (network : string).
Variables (manifest : DAppManifest) (url : option string).

Lemma connect_items_no_proof (items : list ConnectItem) (result : list JsValue)
    (w : World) :
  forallb (fun item => negb (is_ton_proof item)) items = true →
  connect_items account network manifest url items result w =
  (w, Settled (Fulfilled
        (result ++ map (fun _ => toTonAddressItemReply (activeTonWallet account) network)
                       (List.filter is_ton_addr items))%list)).
Proof.
  revert result. induction items as [|item items IH]; intros result Hno.
  - simpl. by rewrite app_nil_r.
  - simpl in Hno. apply andb_true_iff in Hno as [Hitem Hno].
    apply negb_true_iff in Hitem. unfold is_ton_proof in Hitem.
    cbn [connect_items]. rewrite Hitem. rewrite IH by done.
    cbn [List.filter]. unfold is_ton_addr at 2.
    destruct (String.eqb (item_name item) "ton_addr"); [|done].
    simpl. by rewrite <- app_assoc.
Qed.

Lemma connect_items_refused (pre post : list ConnectItem) (item : ConnectItem)
    (result : list JsValue) (w : World) :
  forallb (fun item => negb (is_ton_proof item)) pre = true →
  is_ton_proof item = true →
  isStandardTonWallet (activeTonWallet account) = false ∨
  account_type account = "ledger" →
  connect_items account network manifest url (pre ++ item :: post) result w =
  (w, Settled (Rejected
        (VError "Current wallet doesn't support connection to the service"))).
Proof.
  intros Hno Hitem Hguard. revert result.
  induction pre as [|x pre IH]; intros result.
  - cbn [app connect_items]. unfold is_ton_proof in Hitem. rewrite Hitem.
    destruct (activeTonWallet account) as [standard|id]; [|done].
    destruct Hguard as [Hs|Hl]; [done|]. by rewrite Hl.
  - simpl in Hno. apply andb_true_iff in Hno as [Hx Hno].
    apply negb_true_iff in Hx. unfold is_ton_proof in Hx.
    cbn [app connect_items]. rewrite Hx. by apply IH.
Qed.

(** X17: a request that asks for a proof of ownership is refused for a
    ledger account and for an active contract that is not a standard
    wallet: the mutation throws ["Current wallet doesn't support connection
    to the service"] at the first such item, and the connection is not
    saved: the world is as it was. *)
Theorem connect_proof_refused
    (request : ConnectRequest) (params : TonConnectParams)
    (pre post : list ConnectItem) (item : ConnectItem) (w : World) :
  getTonConnectParams request = Fulfilled params →
  request_items request = (pre ++ item :: post)%list →
  forallb (fun item => negb (is_ton_proof item)) pre = true →
  is_ton_proof item = true →
  isStandardTonWallet (activeTonWallet account) = false ∨
  account_type account = "ledger" →
  call_alone (useConnectTonConnectAppMutation account network manifest url request) w =
  (w, Some (Rejected
              (VError "Current wallet doesn't support connection to the service"))).
Proof.
  intros Hparams Hitems Hno Hitem Hguard.
  unfold call_alone, useConnectTonConnectAppMutation.
  cbn [bind await_io bind_task run_alone fst snd]. rewrite Hparams.
  cbn [bind_task]. unfold bind at 1.
  rewrite Hitems, connect_items_refused by done. reflexivity.
Qed.

(** X18: a request that asks for no proof is answered with one address
    reply for each ['ton_addr'] item, in order, items of other names being
    passed over.  Once the connection is saved, the mutation fulfils with
    these replies whatever the notification service does: absent, not
    subscribed, failing, or given a manifest url that does not parse. *)
Theorem connect_addresses_whatever_notifications
    (request : ConnectRequest) (params : TonConnectParams)
    (s : Storage) (w : World) :
  getTonConnectParams request = Fulfilled params →
  forallb (fun item => negb (is_ton_proof item)) (request_items request) = true →
  saveAccountConnection (storage w) (activeTonWallet account) manifest params url =
    (s, Fulfilled tt) →
  ∃ w',
    call_alone (useConnectTonConnectAppMutation account network manifest url request) w =
    (w', Some (Fulfilled
                 (map (fun _ => toTonAddressItemReply (activeTonWallet account) network)
                      (List.filter is_ton_addr (request_items request))))) ∧
    (notifications = None → w' = set_storage s w).
Proof.
  intros Hparams Hno Hsave.
  unfold call_alone, useConnectTonConnectAppMutation.
  cbn [bind await_io bind_task run_alone fst snd]. rewrite Hparams.
  cbn [bind_task]. unfold bind at 1.
  rewrite connect_items_no_proof by done.
  cbn [bind_task bind await_io run_alone fst snd app]. rewrite Hsave.
  cbn [bind_task]. unfold bind at 1.
  destruct notifications as [service|].
  - unfold try_catch, bind at 1.
    cbn [await_io catch_task bind_task run_alone fst snd].
    destruct (subscribed service (activeTonWallet account)) as [[|]|e];
      cbn [bind_task catch_task run_alone fst snd bind lift await_io ret show_error].
    + destruct (url_host (manifest_url manifest)) as [host|e];
        cbn [bind_task catch_task run_alone fst snd bind lift await_io ret show_error].
      * destruct (subscribeTonConnect service _ host) as [[]|e];
          cbn [bind_task catch_task run_alone fst snd bind lift await_io ret show_error];
          eexists; (split; [reflexivity|done]).
      * eexists; (split; [reflexivity|done]).
    + eexists; (split; [reflexivity|done]).
    + eexists; (split; [reflexivity|done]).
  - cbn [ret bind_task run_alone]. eexists. split; [reflexivity|done].
Qed.

End ConnectProofs.

(** A ledger account is asked for its address and a proof. *)
Lemma connect_proof_refused_witness :
  call_alone (@useConnectTonConnectAppMutation (scenario_services None false)
                ledger_account "mainnet" scenario_manifest None
                address_and_proof_request) empty_world =
  (empty_world,
   Some (Rejected (VError "Current wallet doesn't support connection to the service"))).
Proof.
  refine (@connect_proof_refused (scenario_services None false) ledger_account
            "mainnet" scenario_manifest None address_and_proof_request
            {| protocolVersion := 2;
               params_clientSessionId := "https://dapp.example/manifest.json" |}
            [{| item_name := "ton_addr"; item_payload := "" |}] []
            {| item_name := "ton_proof"; item_payload := "nonce" |}
            empty_world _ _ _ _ _).
  - reflexivity.
  - reflexivity.
  - reflexivity.
  - reflexivity.
  - right. reflexivity.
Defined.

(** The address is asked for; the notification service is subscribed but
    the manifest url does not parse: the reply is the address all the
    same. *)
Lemma connect_addresses_whatever_notifications_witness :
  ∃ w',
    call_alone (@useConnectTonConnectAppMutation
                  (scenario_services (Some failing_notifications) false)
                  mnemonic_account "mainnet" scenario_manifest None address_request)
               empty_world =
    (w', Some (Fulfilled [VObject [("name", VString "ton_addr");
                                   ("network", VString "mainnet")]])).
Proof.
  destruct (@connect_addresses_whatever_notifications
              (scenario_services (Some failing_notifications) false)
              mnemonic_account "mainnet" scenario_manifest None address_request
              {| protocolVersion := 2;
                 params_clientSessionId := "https://dapp.example/manifest.json" |}
              (setAccountConnection empty_storage
                 {| wallet_id := "W"; publicKey := ""; rawAddress := "" |}
                 [{| clientSessionId := "https://dapp.example/manifest.json";
                     webViewUrl := None; manifestUrl := "https://dapp.example" |}])
              empty_world eq_refl eq_refl eq_refl) as (w' & E & _).
  exists w'. exact E.
Defined.

